(** * quenbyako/errors: errors with messages, causes and stack traces

    A shallow embedding of the Go package [errors] (files [errors.go],
    [stack.go], [remap.go] and its go1.18 companion) and the proofs of its
    specification.

    Conventions of the embedding.
    - A Go [string] is a [string] of bytes; [uintptr], [uint] and [int] are
      [Z] with the 64-bit wrap-around written out.
    - An [error] interface value is [option err]: [None] is [nil], [Some v]
      a dynamic value.  Error values are never mutated after construction,
      so a pointer is represented by the value it points to.
    - The goroutine's call stack, which [runtime.Callers] reads, is passed
      explicitly: every function that may capture a trace receives the
      stack of its caller and pushes its own return address when it calls
      on.
    - Side effects of caller-supplied functions (remapper rules and
      converters are Go closures) are threaded through a small state monad
      over an arbitrary world [W]. *)

From Stdlib Require Import ZArith List String Ascii Bool Lia.
From Stdlib Require Decimal DecimalString.
Import ListNotations.

Scheme All for option.
Local Open Scope string_scope.

Set Implicit Arguments.

(** ** Go strings *)

Module GoString.

(** A [rune]; the verbs and flags of [fmt] are single bytes. *)
Abbreviation rune := ascii.

Definition LF : string := String "010"%char "".
Definition TAB : string := String "009"%char "".
Definition DQUOTE : string := String "034"%char "".

(** [s[n:]] *)
Fixpoint slice_from (n : nat) (s : string) : string :=
  match n, s with
  | O, _ => s
  | S n', String _ s' => slice_from n' s'
  | S _, EmptyString => EmptyString
  end.

(** [strings.Index(s, substr)]: first position of [substr], or -1. *)
Definition Index (s substr : string) : Z :=
  match index 0 substr s with
  | Some i => Z.of_nat i
  | None => (-1)%Z
  end.

Fixpoint LastIndex_from (pos : nat) (found : Z) (s substr : string) : Z :=
  let found' := if prefix substr s then Z.of_nat pos else found in
  match s with
  | EmptyString => found'
  | String _ s' => LastIndex_from (S pos) found' s' substr
  end.

(** [strings.LastIndex(s, substr)]: last position of [substr], or -1. *)
Definition LastIndex (s substr : string) : Z :=
  LastIndex_from 0 (-1)%Z s substr.

(** [strings.Join(elems, sep)] *)
Fixpoint Join (elems : list string) (sep : string) : string :=
  match elems with
  | [] => ""
  | [e] => e
  | e :: rest => e ++ sep ++ Join rest sep
  end.

(** The loop of [path.Base] that strips trailing slashes. *)
Fixpoint strip_trailing_slashes (path : string) : string :=
  match path with
  | EmptyString => EmptyString
  | String c rest =>
      let rest' := strip_trailing_slashes rest in
      if (Ascii.eqb c "/" && String.eqb rest' "")%bool then "" else String c rest'
  end.

(** [path.Base] of Go's standard library. *)
Definition path_Base (path : string) : string :=
  if String.eqb path "" then "."
  else
    let path := strip_trailing_slashes path in
    let i := LastIndex path "/" in
    let path := if (0 <=? i)%Z then slice_from (Z.to_nat (i + 1)) path else path in
    if String.eqb path "" then "/" else path.

(** [strconv.Itoa] *)
Definition strconv_Itoa (i : Z) : string :=
  DecimalString.NilZero.string_of_int (Z.to_int i).


End GoString.
Import GoString.

(** ** Machine integers *)

Definition uintptr := Z.
Definition wordsize : Z := 2 ^ 64.

(** Arithmetic on [uint] and [uintptr] wraps around. *)
Definition wrap64 (x : Z) : Z := x mod wordsize.

(** The conversion [int(x)] of a [uint]. *)
Definition int_of_uint (x : Z) : Z :=
  if (x <? 2 ^ 63)%Z then x else (x - wordsize)%Z.

(** ** The Go runtime the package runs on *)

(** A [*runtime.Func]: its name and its pc-to-line table. *)
Record Func : Type := {
  Name : string;
  FileLine : uintptr -> string * Z
}.

(** Return addresses inside the functions of this package and inside
    [runtime.Callers], one per function that can be on the call stack when a
    trace is captured. *)
Record Text : Type := {
  pc_runtime_Callers : uintptr;
  pc_callers : uintptr;
  pc_newFundamental : uintptr;
  pc_New : uintptr;
  pc_Errorf : uintptr;
  pc_wStack : uintptr;
  pc_WithStack : uintptr;
  pc_wrap : uintptr;
  pc_Wrap : uintptr;
  pc_Wrapf : uintptr;
  pc_Remap : uintptr;
  pc_TypeRemapperFunc_func1 : uintptr;
  pc_TypeRemapperLegacyF_func1 : uintptr;
  pc_ErrConstantWrap_func1 : uintptr
}.

(** A call stack: the program counters of the active frames, innermost
    first. *)
Definition CallStack := list uintptr.

(** ** stack.go *)

Definition unknown : string := "unknown".

(** [type Frame uintptr] *)
Definition Frame := uintptr.

(** [type StackTrace []Frame]; [None] is the nil slice. *)
Definition StackTrace := option (list Frame).

(** The flags of a [fmt.State]. *)
Record fmt_State : Type := { Flag : rune -> bool }.

Definition no_flags : fmt_State := {| Flag := fun _ => false |}.
(** The state [fmt] hands to a [Formatter] for the directive ["%+v"]. *)
Definition plus_flag : fmt_State := {| Flag := fun c => Ascii.eqb c "+" |}.
(** The state [fmt] hands to a [Formatter] for the directive ["%#v"]. *)
Definition sharp_flag : fmt_State := {| Flag := fun c => Ascii.eqb c "#" |}.

(** [funcname] removes the path prefix component of a function's name. *)
Definition funcname (name : string) : string :=
  let i := LastIndex name "/" in
  let name := slice_from (Z.to_nat (i + 1)) name in
  let i := Index name "." in
  slice_from (Z.to_nat (i + 1)) name.

(** [runtime.Callers(skip, pc)] seen from its caller, whose stack is [cs]:
    frame 0 is [Callers] itself, [skip] frames are dropped and at most
    [len(pc)] program counters are stored.  The entry points of the package
    all arrive here with a skip of 4. *)
Definition runtime_Callers (text : Text) (cs : CallStack) (skip : Z) (len_pc : nat)
  : list uintptr :=
  firstn len_pc (skipn (Z.to_nat skip) (pc_runtime_Callers text :: cs)).

Definition defaultSkip : Z := 2.
Definition depth : nat := 32.

(** [callers(extraSkip)]; the result is [make(StackTrace, n)], never nil. *)
Definition callers (text : Text) (cs : CallStack) (extraSkip : Z) : list Frame :=
  let pcs :=
    runtime_Callers text (pc_callers text :: cs)
      (int_of_uint (wrap64 (defaultSkip + extraSkip))) depth in
  map (fun pc : uintptr => (pc : Frame)) pcs.

(** The trace that a capture point called with stack [cs] stores: the
    innermost frames of [cs], at most [depth] of them. *)
Definition captured (cs : CallStack) (st : list Frame) : Prop :=
  st = firstn depth cs /\ (List.length st <= 32)%nat.

Section Symbols.

(** [runtime.FuncForPC]: the symbol table of the running program. *)
Variable FuncForPC : uintptr -> option Func.

(** [Frame.pc] *)
Definition pc (f : Frame) : uintptr := wrap64 (f - 1).

(** [Frame.FuncInfo] *)
Definition FuncInfo (f : Frame) : string * Z * string :=
  match FuncForPC (pc f) with
  | None => (unknown, 0%Z, unknown)
  | Some fn =>
      let '(file, line) := FileLine fn (pc f) in
      (file, line, Name fn)
  end.

(** [Frame.Format]: the result is what the method writes to [s]. *)
Definition Frame_Format (f : Frame) (s : fmt_State) (verb : rune) : string :=
  let '(file, line, name) := FuncInfo f in
  let case_s :=
    if Flag s "+" then
      if String.eqb file unknown then file
      else name ++ LF ++ TAB ++ file
    else path_Base file in
  let case_d := strconv_Itoa line in
  if Ascii.eqb verb "s" then case_s
  else if Ascii.eqb verb "d" then case_d
  else if Ascii.eqb verb "n" then funcname name
  else if Ascii.eqb verb "v" then case_s ++ ":" ++ case_d
  else "".

(** [Frame.MarshalText] (the error result is always nil). *)
Definition MarshalText (f : Frame) : string :=
  let '(file, line, name) := FuncInfo f in
  if String.eqb name unknown then name
  else name ++ " " ++ file ++ ":" ++ strconv_Itoa line.

(** [StackTrace.formatSlice] *)
Definition formatSlice (st : StackTrace) (s : fmt_State) (verb : rune) : string :=
  "[" ++ Join (map (fun f => Frame_Format f s verb)
                   (match st with Some fs => fs | None => [] end)) " "
      ++ "]".

(** [fmt.Fprintf(s, "%#v", []Frame(st))]: Go syntax of a slice whose
    elements are [Formatter]s. *)
Definition Fprintf_sharp_v_Frames (st : StackTrace) : string :=
  match st with
  | None => "[]errors.Frame(nil)"
  | Some fs =>
      "[]errors.Frame{"
        ++ Join (map (fun f => Frame_Format f sharp_flag "v") fs) ", " ++ "}"
  end.

(** [StackTrace.Format] *)
Definition StackTrace_Format (st : StackTrace) (s : fmt_State) (verb : rune) : string :=
  if Ascii.eqb verb "v" then
    if Flag s "+" then
      String.concat ""
        (map (fun f => Frame_Format f s verb ++ LF)
             (match st with Some fs => fs | None => [] end))
    else if Flag s "#" then Fprintf_sharp_v_Frames st
    else formatSlice st s verb
  else if Ascii.eqb verb "s" then formatSlice st s verb
  else "".

End Symbols.

(** ** errors.go: the error values *)

(** The dynamic type of a non-nil error, as [reflect.TypeOf] tells types
    apart: the three pointer types of this package, and the types of other
    packages by name. *)
Inductive rtype : Type :=
| ptr_fundamental
| ptr_withStack
| ptr_withMessage
| foreign_type (name : string).

(** A non-nil error value.  [fundamental], [withStack] and [withMessage]
    are the structs of this package behind their pointers; their types are
    unexported and their only constructors store a non-nil cause and the
    non-nil slice that [callers] returns.  [foreign] is an error of another
    package: its type, the methods of that type besides [Error], the text
    that [Error] returns and the error that its [Unwrap] method, if the type
    has one, returns ([None]: nil). *)
Inductive err : Type :=
| fundamental (msg : string) (stack : list Frame)
| withStack (embedded : err) (stack : list Frame)
| withMessage (cause : err) (msg : string)
| foreign (T : string) (methods : list string) (text : string) (next : option err).

(** The interface type [error]; [None] is nil. *)
Definition error := option err.

(** Methods are told apart by name and signature. *)
Definition m_Error : string := "Error() string".
Definition m_Unwrap : string := "Unwrap() error".
Definition m_Format : string := "Format(fmt.State, rune)".
Definition m_stackTrace : string := "errors.stackTrace() errors.StackTrace".

Definition has_method (m : string) (ms : list string) : bool :=
  existsb (String.eqb m) ms.

Definition dynamic_type (v : err) : rtype :=
  match v with
  | fundamental _ _ => ptr_fundamental
  | withStack _ _ => ptr_withStack
  | withMessage _ _ => ptr_withMessage
  | foreign T _ _ _ => foreign_type T
  end.

(** The method set of the dynamic type; [withStack] embeds [error] and so
    promotes [Error]. *)
Definition method_set (v : err) : list string :=
  match v with
  | fundamental _ _ => [m_Error; m_stackTrace; m_Format]
  | withStack _ _ => [m_Error; m_Unwrap; m_stackTrace; m_Format]
  | withMessage _ _ => [m_Error; m_Unwrap; m_Format]
  | foreign _ ms _ _ => m_Error :: ms
  end.

(** The method [Error] of each dynamic type. *)
Fixpoint Error (v : err) : string :=
  match v with
  | fundamental msg _ => msg
  | withStack embedded _ => Error embedded
  | withMessage cause msg => msg ++ ": " ++ Error cause
  | foreign _ _ text _ => text
  end.

(** [err.(interface{ stackTrace() StackTrace })]: the result of the method
    when the assertion holds.  The method is unexported, so only the types
    of this package can have it. *)
Definition as_stackTracer (v : err) : option StackTrace :=
  match v with
  | fundamental _ stack => Some (Some stack)
  | withStack _ stack => Some (Some stack)
  | withMessage _ _ => None
  | foreign _ _ _ _ => None
  end.

(** [err.(interface{ Unwrap() error })]: the result of the method when the
    assertion holds. *)
Definition as_Unwrapper (v : err) : option error :=
  match v with
  | fundamental _ _ => None
  | withStack embedded _ => Some (Some embedded)
  | withMessage cause _ => Some (Some cause)
  | foreign _ ms _ next => if has_method m_Unwrap ms then Some next else None
  end.

(** Modelled from the spec: the package-level function [Unwrap], which
    [Stack] calls and whose file is not among the sources.  The spec calls it
    the chain-unwrap: the result of the error's [Unwrap] method, and nil for
    nil and for an error without that capability. *)
Definition Unwrap (e : error) : error :=
  match e with
  | None => None
  | Some v =>
      match as_Unwrapper v with
      | Some next => next
      | None => None
      end
  end.

(** The recursion of [Stack] on a non-nil error; [Stack_eq] below shows that
    it is the source's [Stack(Unwrap(err))]. *)
Fixpoint Stack_of (v : err) : StackTrace :=
  match v with
  | fundamental _ stack => Some stack
  | withStack _ stack => Some stack
  | withMessage cause _ => Stack_of cause
  | foreign _ ms _ next =>
      if has_method m_Unwrap ms then
        match next with
        | Some v' => Stack_of v'
        | None => None
        end
      else None
  end.

(** [Stack] returns the stack trace of an error. *)
Definition Stack (e : error) : StackTrace :=
  match e with
  | None => None
  | Some v => Stack_of v
  end.

(** The loop of [Cause] on a non-nil error; [Cause_eq] below shows that it
    takes the source's three exits. *)
Fixpoint Cause_of (v : err) : err :=
  match v with
  | fundamental _ _ => v
  | withStack embedded _ => Cause_of embedded
  | withMessage cause _ => Cause_of cause
  | foreign _ ms _ next =>
      if has_method m_Unwrap ms then
        match next with
        | Some v' => Cause_of v'
        | None => v
        end
      else v
  end.

(** [Cause] returns the underlying cause of the error, the deepest one. *)
Definition Cause (e : error) : error :=
  match e with
  | None => None
  | Some v => Some (Cause_of v)
  end.

(** The causal chain of an error, outermost first: the error, its
    chain-unwrap, and so on. *)
Fixpoint chain (v : err) : list err :=
  v :: match v with
       | fundamental _ _ => []
       | withStack embedded _ => chain embedded
       | withMessage cause _ => chain cause
       | foreign _ ms _ next =>
           if has_method m_Unwrap ms then
             match next with
             | Some v' => chain v'
             | None => []
             end
           else []
       end.

(** An error carries a stack when it has the stack-lookup capability. *)
Definition carries_stack (v : err) : bool :=
  match as_stackTracer v with
  | Some _ => true
  | None => false
  end.

(** An error has no further cause when it lacks the unwrap capability or
    its unwrap yields nil. *)
Definition no_further_cause (v : err) : bool :=
  match as_Unwrapper v with
  | Some (Some _) => false
  | Some None => true
  | None => true
  end.

(** The spec's wording of [Stack]: the stack of the first error of the chain
    that carries one, absent when there is none. *)
Definition Stack_spec (e : error) : StackTrace :=
  match e with
  | None => None
  | Some v =>
      match find carries_stack (chain v) with
      | Some holder =>
          match as_stackTracer holder with
          | Some st => st
          | None => None
          end
      | None => None
      end
  end.

(** The spec's wording of [Cause]: the first error of the chain with no
    further cause. *)
Definition Cause_spec (e : error) : error :=
  match e with
  | None => None
  | Some v => find no_further_cause (chain v)
  end.

(** ** errors.go: construction and formatting *)

Section Package.

(** The code of this package in memory. *)
Variable text : Text.

(** The symbol table of the running program. *)
Variable FuncForPC : uintptr -> option Func.

(** [interface{}] and the two functions of the standard library that the
    package formats with: [fmt.Sprintf] and the quoting of [%q],
    [strconv.Quote]. *)
Variable any : Type.
Variable fmt_Sprintf : string -> list any -> string.
Variable strconv_Quote : string -> string.

Definition newFundamental (cs : CallStack) (msg : string) (extraSkip : Z) : error :=
  Some (fundamental msg
          (callers text (pc_newFundamental text :: cs) (wrap64 (1 + extraSkip)))).

(** [New] returns an error with the supplied message and records the stack
    trace at the point it was called; [cs] is the stack of its caller. *)
Definition New (cs : CallStack) (msg : string) : error :=
  newFundamental (pc_New text :: cs) msg 1.

Definition Errorf (cs : CallStack) (format : string) (args : list any) : error :=
  newFundamental (pc_Errorf text :: cs) (fmt_Sprintf format args) 1.

Definition wStack (cs : CallStack) (e : error) (extraSkip : Z) : error :=
  match e with
  | None => None
  | Some v =>
      Some (withStack v (callers text (pc_wStack text :: cs) (wrap64 (1 + extraSkip))))
  end.

Definition WithStack (cs : CallStack) (e : error) : error :=
  wStack (pc_WithStack text :: cs) e 1.

Definition wMessage (e : error) (message : string) : error :=
  match e with
  | None => None
  | Some v => Some (withMessage v message)
  end.

Definition WithMessage (e : error) (message : string) : error :=
  wMessage e message.

Definition WithMessagef (e : error) (format : string) (args : list any) : error :=
  wMessage e (fmt_Sprintf format args).

Definition wrap (cs : CallStack) (e : error) (message : string) (extraSkip : Z) : error :=
  match e with
  | None => None
  | Some v =>
      let e' := withMessage v message in
      match Stack (Some e') with
      | Some _ => Some e'
      | None =>
          Some (withStack e' (callers text (pc_wrap text :: cs) (wrap64 (1 + extraSkip))))
      end
  end.

Definition Wrap (cs : CallStack) (e : error) (message : string) : error :=
  wrap (pc_Wrap text :: cs) e message 1.

Definition Wrapf (cs : CallStack) (e : error) (format : string) (args : list any) : error :=
  wrap (pc_Wrapf text :: cs) e (fmt_Sprintf format args) 1.

(** The [Format] methods.  Each returns what it writes to [s]. *)

Definition fundamental_Format (msg : string) (stack : list Frame)
  (s : fmt_State) (verb : rune) : string :=
  let case_s := msg in
  if Ascii.eqb verb "v" then
    if Flag s "+" then
      (msg ++ LF) ++ StackTrace_Format FuncForPC (Some stack) s verb
    else case_s
  else if Ascii.eqb verb "s" then case_s
  else if Ascii.eqb verb "q" then strconv_Quote msg
  else "".

Section Formatters.

(** [fmt.Fprintf(s, "%+v", e)] for the error inside a wrapper. *)
Variable Fprintf_plus_v : err -> string.

Definition withStack_Format (embedded : err) (stack : list Frame)
  (s : fmt_State) (verb : rune) : string :=
  let case_s := Error (withStack embedded stack) in
  if Ascii.eqb verb "v" then
    if Flag s "+" then
      (Fprintf_plus_v embedded ++ LF)
        ++ StackTrace_Format FuncForPC (Some stack) s verb
    else case_s
  else if Ascii.eqb verb "s" then case_s
  else if Ascii.eqb verb "q" then strconv_Quote (Error (withStack embedded stack))
  else "".

Definition withMessage_Format (cause : err) (msg : string)
  (s : fmt_State) (verb : rune) : string :=
  let case_s := Error (withMessage cause msg) in
  if Ascii.eqb verb "v" then
    if Flag s "+" then msg ++ ": " ++ Fprintf_plus_v cause
    else case_s
  else if Ascii.eqb verb "s" then case_s
  else if Ascii.eqb verb "q" then DQUOTE ++ Error (withMessage cause msg) ++ DQUOTE
  else "".

End Formatters.

(** What [fmt] prints for an error under ["%+v"]: it calls the [Format]
    method of the three types of this package; for an error of another
    package the model takes the default of [fmt], the text of [Error] (a
    [Format] method of a foreign type is not modelled). *)
Fixpoint Fprintf_plus_v (v : err) : string :=
  match v with
  | fundamental msg stack => fundamental_Format msg stack plus_flag "v"
  | withStack embedded stack =>
      withStack_Format Fprintf_plus_v embedded stack plus_flag "v"
  | withMessage cause msg =>
      withMessage_Format Fprintf_plus_v cause msg plus_flag "v"
  | foreign _ _ txt _ => txt
  end.

(** [err.(fmt.Formatter)] for the types of this package: the [Format]
    method of the dynamic type. *)
Definition as_Formatter (v : err) : option (fmt_State -> rune -> string) :=
  match v with
  | fundamental msg stack => Some (fundamental_Format msg stack)
  | withStack embedded stack => Some (withStack_Format Fprintf_plus_v embedded stack)
  | withMessage cause msg => Some (withMessage_Format Fprintf_plus_v cause msg)
  | foreign _ _ _ _ => None
  end.

End Package.

(** Successive wraps, innermost first:
    [wraps e [(cs1, m1); (cs2, m2)]] is [Wrap(Wrap(e, m1), m2)], the first
    called with stack [cs1] and the second with [cs2]. *)
Fixpoint wraps (text : Text) (e : error) (layers : list (CallStack * string)) : error :=
  match layers with
  | [] => e
  | (cs, message) :: rest => wraps text (Wrap text cs e message) rest
  end.

(** The text [s] with the messages of the layers put in front, the last
    layer outermost. *)
Fixpoint annotated (s : string) (layers : list (CallStack * string)) : string :=
  match layers with
  | [] => s
  | (_, message) :: rest => annotated (message ++ ": " ++ s) rest
  end.

(** ** remap.go: the remapping dispatcher *)

(** Type arguments of the generic rule constructors.  The constraint
    [T error] admits non-interface types, which are dynamic types, and
    interface types, given by their method set. *)
Inductive TypeArg : Type :=
| concrete (t : rtype)
| interface (methods : list string).

Definition rtype_eqb (a b : rtype) : bool :=
  match a, b with
  | ptr_fundamental, ptr_fundamental => true
  | ptr_withStack, ptr_withStack => true
  | ptr_withMessage, ptr_withMessage => true
  | foreign_type n, foreign_type m => String.eqb n m
  | _, _ => false
  end.

(** [reflect.TypeOf]; the type of nil is nil. *)
Definition reflect_TypeOf (e : error) : option rtype :=
  match e with
  | None => None
  | Some v => Some (dynamic_type v)
  end.

(** [reflect.TypeOf(a) == reflect.TypeOf(b)] *)
Definition Type_eqb (a b : option rtype) : bool :=
  match a, b with
  | None, None => true
  | Some x, Some y => rtype_eqb x y
  | _, _ => false
  end.

(** The dynamic type has every method of the interface. *)
Definition implements (v : err) (methods : list string) : bool :=
  forallb (fun m => has_method m (method_set v)) methods.

(** The type assertion [_, ok := err.(T)]: for a non-interface [T] the
    dynamic type of [err] is [T]; for an interface [T] the dynamic type of
    [err] implements it; never for nil. *)
Definition type_assert (e : error) (T : TypeArg) : bool :=
  match e with
  | None => false
  | Some v =>
      match T with
      | concrete t => rtype_eqb (dynamic_type v) t
      | interface methods => implements v methods
      end
  end.

Section Dispatcher.

Variable text : Text.
Variable any : Type.
Variable fmt_Sprintf : string -> list any -> string.

(** The state of the program that caller-supplied closures may change. *)
Variable W : Type.

(** Computations of Go code with effects on the world. *)
Definition M (A : Type) : Type := W -> A * W.

Definition ret {A : Type} (a : A) : M A := fun w => (a, w).

Definition bind {A B : Type} (c : M A) (k : A -> M B) : M B :=
  fun w => let (a, w') := c w in k a w'.

Notation "x <- c ;; k" := (bind c (fun x => k))
  (at level 61, c at next level, right associativity).

(** [type ErrConverter = func(error) error]; a call passes the stack of the
    caller. *)
Definition ErrConverter : Type := CallStack -> error -> M error.

Definition ConstConverter (e : error) : ErrConverter :=
  fun _ _ => ret e.

(** [type ErrRemapperFunc = func(error) (error, bool)] *)
Definition ErrRemapperFunc : Type := CallStack -> error -> M (error * bool).

(** [Remap] remaps the provided error to a different one. *)
Fixpoint Remap (cs : CallStack) (e : error) (remappers : list ErrRemapperFunc)
  : M error :=
  match remappers with
  | [] => ret e
  | remapper :: rest =>
      r <- remapper (pc_Remap text :: cs) e ;;
      if snd r then ret (fst r) else Remap cs e rest
  end.

Definition TypeRemapperLegacyF (T : error) (converter : ErrConverter) : ErrRemapperFunc :=
  let t := reflect_TypeOf T in
  fun cs e =>
    if Type_eqb (reflect_TypeOf e) t then
      e' <- converter (pc_TypeRemapperLegacyF_func1 text :: cs) e ;;
      ret (e', true)
    else ret (None, false).

Definition TypeRemapperLegacy (T convertTo : error) : ErrRemapperFunc :=
  TypeRemapperLegacyF T (ConstConverter convertTo).

Definition TypeRemapperFunc (T : TypeArg) (converter : ErrConverter) : ErrRemapperFunc :=
  fun cs e =>
    if type_assert e T then
      e' <- converter (pc_TypeRemapperFunc_func1 text :: cs) e ;;
      ret (e', true)
    else ret (None, false).

Definition TypeRemapper (T : TypeArg) (convertTo : error) : ErrRemapperFunc :=
  TypeRemapperFunc T (ConstConverter convertTo).

(** [ErrConstantWrap] always reports a match and wraps the error as [Wrap]
    does. *)
Definition ErrConstantWrap (message : string) (args : list any) : ErrRemapperFunc :=
  fun cs e =>
    ret (wrap text (pc_ErrConstantWrap_func1 text :: cs) e (fmt_Sprintf message args) 1,
         true).

(** The rule declines the error: it reports no match, and changes the world
    from [w] to [w']. *)
Definition declines (cs : CallStack) (e : error) (r : ErrRemapperFunc) (w w' : W) : Prop :=
  snd (fst (r (pc_Remap text :: cs) e w)) = false
  /\ snd (r (pc_Remap text :: cs) e w) = w'.

(** Every rule of the list, run in order from world [w], declines the error
    and the last one leaves world [w']. *)
Inductive all_decline (cs : CallStack) (e : error)
  : list ErrRemapperFunc -> W -> W -> Prop :=
| all_decline_nil : forall w, all_decline cs e [] w w
| all_decline_cons : forall r rest w w1 w',
    declines cs e r w w1 ->
    all_decline cs e rest w1 w' ->
    all_decline cs e (r :: rest) w w'.

(** The candidate's dynamic type is the type argument. *)
Definition has_type (e : error) (T : TypeArg) : Prop :=
  exists v, e = Some v /\ T = concrete (dynamic_type v).

End Dispatcher.

(** ** A small program to run the package on *)

Module Demo.

Local Open Scope Z_scope.

Definition text : Text := {|
  pc_runtime_Callers := 4112;
  pc_callers := 4176;
  pc_newFundamental := 4240;
  pc_New := 4304;
  pc_Errorf := 4368;
  pc_wStack := 4432;
  pc_WithStack := 4496;
  pc_wrap := 4560;
  pc_Wrap := 4624;
  pc_Wrapf := 4688;
  pc_Remap := 4752;
  pc_TypeRemapperFunc_func1 := 4816;
  pc_TypeRemapperLegacyF_func1 := 4880;
  pc_ErrConstantWrap_func1 := 4944
|}.

Definition main_main : Func := {|
  Name := "main.main";
  FileLine := fun _ => ("/home/dev/app/main.go", 12%Z)
|}.

(** An assembly routine declared as [TEXT unknown(SB)]: symbols of
    assembly files carry no package prefix unless they ask for one. *)
Definition asm_unknown : Func := {|
  Name := "unknown";
  FileLine := fun _ => ("/home/dev/app/stub_amd64.s", 7%Z)
|}.

Definition FuncForPC (pc : uintptr) : option Func :=
  if (pc =? 8192)%Z then Some main_main
  else if (pc =? 12288)%Z then Some asm_unknown
  else None.

(** Return addresses are one past the program counter of the call. *)
Definition in_main : Frame := 8193%Z.
Definition in_asm : Frame := 12289%Z.

(** The stack of [main.main] when it calls into the package. *)
Definition stack_of_main : CallStack := [in_main].

(** [fmt.Sprintf] on formats without verbs, and a quoting for texts
    without special characters. *)
Definition Sprintf (format : string) (args : list string) : string := format.
Definition Quote (s : string) : string := DQUOTE ++ s ++ DQUOTE.

(** [io.EOF], an [*errors.errorString] of the standard library. *)
Definition io_EOF : err := foreign "*errors.errorString" [] "EOF" None.

(** A sentinel of the calling program. *)
Definition ErrInternal : err := foreign "*app.Error" [] "internal error" None.

(** The interface type [error] as a type argument. *)
Definition error_interface : TypeArg := interface [m_Error].

(** The world of the demo is the log of the rules that ran. *)
Definition Log := list string.

(** A rule that logs its name and answers [res] whatever the error. *)
Definition logged (name : string) (res : error * bool) : ErrRemapperFunc Log :=
  fun _ _ w => (res, (w ++ [name])%list).

(** A catch-all rule of the calling program:
    [func(error) (error, bool) { return ErrInternal, true }]. *)
Definition catch_all : ErrRemapperFunc unit :=
  fun _ _ w => ((Some ErrInternal, true), w).

End Demo.

(** ** Vocabulary of the further properties *)

(** No byte of [s] is [c]. *)
Fixpoint free_of (c : ascii) (s : string) : bool :=
  match s with
  | EmptyString => true
  | String b s' => negb (Ascii.eqb b c) && free_of c s'
  end.

(** The number of errors of the chain that carry a stack. *)
Definition stacks_in_chain (v : err) : nat :=
  List.length (filter carries_stack (chain v)).

Section TraceText.

Variable FuncForPC : uintptr -> option Func.


End TraceText.

(** * Properties *)

(** ** The equations of the source *)

(** [Stack] as the source writes it: nil for nil, the error's own stack when
    it has the capability, and [Stack(Unwrap(err))] otherwise. *)
Lemma Stack_eq (e : error) :
  Stack e =
  match e with
  | None => None
  | Some v =>
      match as_stackTracer v with
      | Some st => st
      | None => Stack (Unwrap e)
      end
  end.
Proof.
  destruct e as [v|]; [|reflexivity].
  destruct v as [msg st|emb st|cause msg|T ms txt next]; simpl; try reflexivity.
  destruct (has_method m_Unwrap ms); reflexivity.
Qed.

(** [Cause] as the source writes its loop: the error itself when it has no
    [Unwrap] method or the method yields nil, the loop on the result
    otherwise. *)
Lemma Cause_eq (e : error) :
  Cause e =
  match e with
  | None => None
  | Some v =>
      match as_Unwrapper v with
      | None => e
      | Some None => e
      | Some (Some v') => Cause (Some v')
      end
  end.
Proof.
  destruct e as [v|]; [|reflexivity].
  destruct v as [msg st|emb st|cause msg|T ms txt next]; simpl; try reflexivity.
  destruct (has_method m_Unwrap ms); [destruct next|]; reflexivity.
Qed.

(** ** Stack capture *)

(** The bookkeeping of skips: two frames of the package above [callers]
    and an extra skip of two leave exactly the stack of the caller. *)
Lemma callers_entry (text : Text) (outer inner : uintptr) (cs : CallStack) :
  callers text (inner :: outer :: cs) 2 = firstn depth cs.
Proof.
  unfold callers, runtime_Callers.
  change (int_of_uint (wrap64 (defaultSkip + 2))) with 4%Z.
  change (Z.to_nat 4) with 4%nat. simpl skipn.
  apply map_id.
Qed.

Lemma callers_length (text : Text) (cs : CallStack) (extraSkip : Z) :
  (List.length (callers text cs extraSkip) <= depth)%nat.
Proof.
  unfold callers, runtime_Callers. rewrite length_map.
  apply firstn_le_length.
Qed.

Lemma New_eq (text : Text) (cs : CallStack) (msg : string) :
  New text cs msg = Some (fundamental msg (firstn depth cs)).
Proof.
  unfold New, newFundamental.
  change (wrap64 (1 + 1)) with 2%Z. now rewrite callers_entry.
Qed.

Lemma WithStack_eq (text : Text) (cs : CallStack) (v : err) :
  WithStack text cs (Some v) = Some (withStack v (firstn depth cs)).
Proof.
  unfold WithStack, wStack.
  change (wrap64 (1 + 1)) with 2%Z. now rewrite callers_entry.
Qed.

(** ** Lookup along the chain *)

Lemma Stack_of_find (v : err) :
  Stack_of v =
  match find carries_stack (chain v) with
  | Some holder =>
      match as_stackTracer holder with
      | Some st => st
      | None => None
      end
  | None => None
  end.
Proof.
  induction v as [msg st|emb IH st|cause IH msg|T ms txt next IH]; simpl; auto.
  destruct (has_method m_Unwrap ms); [|reflexivity].
  destruct IH as [v' IH|]; [exact IH|reflexivity].
Qed.

Lemma Stack_of_None (v : err) :
  Stack_of v = None <-> existsb carries_stack (chain v) = false.
Proof.
  induction v as [msg st|emb IH st|cause IH msg|T ms txt next IH]; simpl.
  - split; discriminate.
  - split; discriminate.
  - exact IH.
  - destruct (has_method m_Unwrap ms); [|tauto].
    destruct IH as [v' IH|]; [exact IH|tauto].
Qed.

Lemma Cause_of_find (v : err) :
  find no_further_cause (chain v) = Some (Cause_of v).
Proof.
  induction v as [msg st|emb IH st|cause IH msg|T ms txt next IH]; simpl; auto.
  unfold no_further_cause; simpl.
  destruct (has_method m_Unwrap ms); [|reflexivity].
  destruct IH as [v' IH|]; [exact IH|reflexivity].
Qed.

Lemma chain_cons (v : err) : exists rest, chain v = v :: rest.
Proof. destruct v; simpl; eexists; reflexivity. Qed.

Lemma last_chain_under (a : err) (v : err) (d : err) :
  last (a :: chain v) d = last (chain v) d.
Proof. destruct (chain_cons v) as [rest ->]. reflexivity. Qed.

Lemma Cause_of_last (v : err) :
  forall d, last (chain v) d = Cause_of v.
Proof.
  induction v as [msg st|emb IH st|cause IH msg|T ms txt next IH]; intros d.
  - reflexivity.
  - change (chain (withStack emb st)) with (withStack emb st :: chain emb).
    rewrite last_chain_under. apply IH.
  - change (chain (withMessage cause msg)) with (withMessage cause msg :: chain cause).
    rewrite last_chain_under. apply IH.
  - simpl chain. simpl Cause_of.
    destruct (has_method m_Unwrap ms); [|reflexivity].
    destruct IH as [v' IH|]; [|reflexivity].
    rewrite last_chain_under. apply IH.
Qed.

Lemma Cause_of_deepest (v : err) : no_further_cause (Cause_of v) = true.
Proof.
  pose proof (Cause_of_find v) as H.
  apply find_some in H. apply H.
Qed.

(** [Wrap] on a non-nil error: the message annotation alone when the chain
    already has a stack, a stack annotation with a fresh capture around it
    otherwise. *)
Lemma Wrap_cases (text : Text) (cs : CallStack) (v : err) (msg : string) :
  Wrap text cs (Some v) msg =
  match Stack_of v with
  | Some _ => Some (withMessage v msg)
  | None => Some (withStack (withMessage v msg) (firstn depth cs))
  end.
Proof.
  unfold Wrap, wrap. simpl Stack.
  destruct (Stack_of v); [reflexivity|].
  change (wrap64 (1 + 1)) with 2%Z. now rewrite callers_entry.
Qed.

Lemma Wrap_Error (text : Text) (cs : CallStack) (v : err) (msg : string) :
  exists w, Wrap text cs (Some v) msg = Some w
            /\ Error w = msg ++ ": " ++ Error v.
Proof.
  rewrite Wrap_cases. destruct (Stack_of v); eexists; split; reflexivity.
Qed.

Lemma captured_firstn (cs : CallStack) : captured cs (firstn depth cs).
Proof. split; [reflexivity|apply firstn_le_length]. Qed.

(** The first element of a list that passes a test, and what precedes
    it. *)
Lemma find_first {A : Type} (p : A -> bool) (l : list A) :
  existsb p l = true ->
  exists pre x post,
    l = (pre ++ x :: post)%list
    /\ forallb (fun y => negb (p y)) pre = true
    /\ p x = true
    /\ find p l = Some x.
Proof.
  induction l as [|a l IH]; simpl; [discriminate|].
  destruct (p a) eqn:Ha; simpl.
  - intros _. exists [], a, l. auto.
  - intros H. destruct (IH H) as (pre & x & post & -> & Hpre & Hx & Hfind).
    exists (a :: pre), x, post. simpl. rewrite Ha. auto.
Qed.

Lemma carries_stack_inv (v : err) :
  carries_stack v = true -> exists st, as_stackTracer v = Some (Some st).
Proof.
  destruct v as [msg st|emb st|cause msg|T ms txt next]; simpl;
    try discriminate; intros _; exists st; reflexivity.
Qed.

(** ** The claims *)

(** C1. For every non-nil error [v] and message [msg], the text of
    [Wrap(v, msg)] is [msg + ": " + v.Error()]; nested wraps compose
    ("outer: inner: root"), to any depth; and each [Format] method of the
    package, called with the verb [s], or with the verb [v] and no [+] flag,
    writes exactly the text of [Error]. *)
Theorem C1_wrap_text_composition
  (text : Text) (FuncForPC : uintptr -> option Func) (Quote : string -> string) :
  (forall cs v msg,
      option_map Error (Wrap text cs (Some v) msg) = Some (msg ++ ": " ++ Error v))
  /\ (forall cs1 cs2 root inner outer,
         option_map Error (Wrap text cs2 (Wrap text cs1 (Some root) inner) outer)
         = Some (outer ++ ": " ++ inner ++ ": " ++ Error root))
  /\ (forall v layers,
         option_map Error (wraps text (Some v) layers)
         = Some (annotated (Error v) layers))
  /\ (forall v format s verb,
         as_Formatter FuncForPC Quote v = Some format ->
         verb = "s"%char \/ (verb = "v"%char /\ Flag s "+" = false) ->
         format s verb = Error v).
Proof.
  split; [|split; [|split]].
  - intros cs v msg. destruct (Wrap_Error text cs v msg) as (w & -> & Hw).
    simpl. now rewrite Hw.
  - intros cs1 cs2 root inner outer.
    destruct (Wrap_Error text cs1 root inner) as (w1 & -> & Hw1).
    destruct (Wrap_Error text cs2 w1 outer) as (w2 & -> & Hw2).
    simpl. now rewrite Hw2, Hw1.
  - intros v layers. revert v.
    induction layers as [|[cs message] rest IH]; intros v; [reflexivity|].
    cbn [wraps annotated].
    destruct (Wrap_Error text cs v message) as (w & -> & Hw).
    rewrite IH. now rewrite Hw.
  - intros v format s verb Hf Hverb.
    destruct v as [msg st|emb st|cause msg|T ms txt next]; simpl in Hf;
      inversion Hf; subst format; clear Hf;
      destruct Hverb as [->|[-> Hplus]];
      unfold fundamental_Format, withStack_Format, withMessage_Format;
      simpl; try rewrite Hplus; reflexivity.
Qed.

(** C2. [Wrap] of a non-nil error always yields an error with a stack; it
    captures one exactly when the chain of the error carries none, and
    otherwise the stack found is the one the error already had, as for
    [Wrap(New("x"), msg)]. *)
Theorem C2_wrap_captures_once (text : Text) (cs : CallStack) (v : err) (msg : string) :
  Stack (Wrap text cs (Some v) msg) <> None
  /\ (existsb carries_stack (chain v) = true ->
      Wrap text cs (Some v) msg = Some (withMessage v msg)
      /\ Stack (Wrap text cs (Some v) msg) = Stack (Some v))
  /\ (existsb carries_stack (chain v) = false ->
      Wrap text cs (Some v) msg = Some (withStack (withMessage v msg) (firstn depth cs)))
  /\ (forall cs0 x,
         Stack (Wrap text cs (New text cs0 x) msg) = Stack (New text cs0 x)).
Proof.
  rewrite Wrap_cases.
  pose proof (Stack_of_None v) as Hnone.
  destruct (Stack_of v) as [st|] eqn:Hst.
  - split; [simpl; rewrite Hst; discriminate|].
    split; [intros _; split; [reflexivity|simpl; reflexivity]|].
    split.
    + intros Hno. apply Hnone in Hno. discriminate.
    + intros cs0 x. rewrite New_eq, Wrap_cases. reflexivity.
  - split; [simpl; discriminate|].
    split.
    + intros Hyes. rewrite (proj1 Hnone eq_refl) in Hyes. discriminate.
    + split; [reflexivity|].
      intros cs0 x. rewrite New_eq, Wrap_cases. reflexivity.
Qed.

(** C5. [Cause] returns nil for nil and otherwise the deepest error of the
    chain, which is the first one that lacks the unwrap capability or whose
    unwrap yields nil; for [Wrap(Wrap(New("root"), "a"), "b")] that is the
    value [New("root")] returned. *)
Theorem C5_cause_is_deepest :
  Cause None = None
  /\ (forall e, Cause e = Cause_spec e)
  /\ (forall v d, exists deepest,
         Cause (Some v) = Some deepest
         /\ last (chain v) d = deepest
         /\ no_further_cause deepest = true)
  /\ (forall text cs0 cs1 cs2 root a b,
         Cause (Wrap text cs2 (Wrap text cs1 (New text cs0 root) a) b)
         = New text cs0 root).
Proof.
  split; [reflexivity|]. split; [|split].
  - intros [v|]; [|reflexivity]. simpl. now rewrite Cause_of_find.
  - intros v d. exists (Cause_of v). split; [reflexivity|].
    split; [apply Cause_of_last|apply Cause_of_deepest].
  - intros text cs0 cs1 cs2 root a b.
    rewrite New_eq. rewrite (Wrap_cases text cs1). cbn [Stack_of].
    rewrite Wrap_cases. reflexivity.
Qed.

(** C6. [Stack] returns the stack of the first error, from the outermost
    on along the chain of unwraps, that carries one; it returns nil for nil
    and when no error of the chain carries a stack. *)
Theorem C6_stack_is_first_in_chain :
  (forall e, Stack e = Stack_spec e)
  /\ Stack None = None
  /\ (forall v, existsb carries_stack (chain v) = false -> Stack (Some v) = None)
  /\ (forall v, existsb carries_stack (chain v) = true ->
        exists pre holder post st,
          chain v = (pre ++ holder :: post)%list
          /\ forallb (fun x => negb (carries_stack x)) pre = true
          /\ as_stackTracer holder = Some (Some st)
          /\ Stack (Some v) = Some st).
Proof.
  split; [|split; [reflexivity|split]].
  - intros [v|]; [|reflexivity]. simpl. apply Stack_of_find.
  - intros v Hno. simpl. now apply Stack_of_None.
  - intros v Hyes. simpl. rewrite Stack_of_find.
    destruct (find_first carries_stack (chain v) Hyes)
      as (pre & holder & post & Hsplit & Hpre & Hholder & ->).
    destruct (carries_stack_inv holder Hholder) as [st Hst].
    exists pre, holder, post, st. rewrite Hst. auto.
Qed.

(** C8. Every capture point stores at most 32 frames: [callers] never
    returns more, and [New], [Errorf], [WithStack] and the capture of [Wrap]
    store the 32 innermost frames of their caller's stack, so that the
    frames of older callers are not recorded. *)
Theorem C8_capture_depth
  (text : Text) (any : Type) (Sprintf : string -> list any -> string) (cs : CallStack) :
  (forall extraSkip, (List.length (callers text cs extraSkip) <= 32)%nat)
  /\ (forall msg, exists st,
         New text cs msg = Some (fundamental msg st) /\ captured cs st)
  /\ (forall format args, exists st,
         Errorf text Sprintf cs format args
         = Some (fundamental (Sprintf format args) st) /\ captured cs st)
  /\ (forall v, exists st,
         WithStack text cs (Some v) = Some (withStack v st) /\ captured cs st)
  /\ (forall v msg w st,
         Wrap text cs (Some v) msg = Some (withStack w st) -> captured cs st)
  /\ (forall st i, captured cs st -> (32 <= i)%nat -> nth_error st i = None).
Proof.
  split; [intros k; apply callers_length|].
  split; [intros msg; exists (firstn depth cs); split;
          [apply New_eq|apply captured_firstn]|].
  split.
  { intros format args. exists (firstn depth cs). split; [|apply captured_firstn].
    unfold Errorf, newFundamental.
    change (wrap64 (1 + 1)) with 2%Z. now rewrite callers_entry. }
  split; [intros v; exists (firstn depth cs); split;
          [apply WithStack_eq|apply captured_firstn]|].
  split.
  - intros v msg w st. rewrite Wrap_cases.
    destruct (Stack_of v); intros H; inversion H. apply captured_firstn.
  - intros st i [_ Hlen] Hi. apply nth_error_None. lia.
Qed.

(** ** The dispatcher *)

Section DispatcherFacts.

Variable text : Text.
Variable W : Type.
Variable cs : CallStack.
Variable e : error.

Lemma Remap_cons (r : ErrRemapperFunc W) (rest : list (ErrRemapperFunc W)) (w : W) :
  Remap text cs e (r :: rest) w =
  (if snd (fst (r (pc_Remap text :: cs) e w))
   then (fst (fst (r (pc_Remap text :: cs) e w)), snd (r (pc_Remap text :: cs) e w))
   else Remap text cs e rest (snd (r (pc_Remap text :: cs) e w))).
Proof.
  simpl. unfold bind, ret.
  destruct (r (pc_Remap text :: cs) e w) as [[e1 ok] w1]. simpl.
  destruct ok; reflexivity.
Qed.

(** No rule matches: the error comes back unchanged. *)
Lemma Remap_no_match (rules : list (ErrRemapperFunc W)) (w w' : W) :
  all_decline text cs e rules w w' -> Remap text cs e rules w = (e, w').
Proof.
  induction 1 as [w|r rest w w1 w' [Hno Hw] _ IH]; [reflexivity|].
  rewrite Remap_cons, Hno, Hw. exact IH.
Qed.

(** The first rule that matches decides, whatever follows it. *)
Lemma Remap_first_match (pre post : list (ErrRemapperFunc W)) (r : ErrRemapperFunc W)
  (e' : error) (w w1 w2 : W) :
  all_decline text cs e pre w w1 ->
  r (pc_Remap text :: cs) e w1 = ((e', true), w2) ->
  Remap text cs e (pre ++ r :: post) w = (e', w2).
Proof.
  intros Hpre Hr.
  induction Hpre as [w|r0 rest w w0 w1 [Hno Hw] _ IH].
  - cbn [app]. rewrite Remap_cons, Hr. reflexivity.
  - cbn [app]. rewrite Remap_cons, Hno, Hw. exact (IH Hr).
Qed.

(** Every run of [Remap] is one of the two. *)
Lemma Remap_run (rules : list (ErrRemapperFunc W)) (w : W) :
  (exists pre r post e' w1 w2,
      rules = (pre ++ r :: post)%list
      /\ all_decline text cs e pre w w1
      /\ r (pc_Remap text :: cs) e w1 = ((e', true), w2)
      /\ Remap text cs e rules w = (e', w2))
  \/ (exists w', all_decline text cs e rules w w'
                 /\ Remap text cs e rules w = (e, w')).
Proof.
  revert w. induction rules as [|r rest IH]; intros w.
  - right. exists w. split; [constructor|reflexivity].
  - destruct (r (pc_Remap text :: cs) e w) as [[e1 ok] w1] eqn:Hr.
    destruct ok.
    + left. exists [], r, rest, e1, w, w1.
      split; [reflexivity|]. split; [constructor|]. split; [exact Hr|].
      rewrite Remap_cons, Hr. reflexivity.
    + assert (Hd : declines text cs e r w w1) by (unfold declines; now rewrite Hr).
      destruct (IH w1) as [(pre & r' & post & e' & wa & wb & -> & Hpre & Hr' & Hrun)
                          |(w' & Hall & Hrun)].
      * left. exists (r :: pre), r', post, e', wa, wb.
        split; [reflexivity|]. split; [econstructor; eassumption|].
        split; [exact Hr'|]. rewrite Remap_cons, Hr. exact Hrun.
      * right. exists w'. split; [econstructor; eassumption|].
        rewrite Remap_cons, Hr. exact Hrun.
Qed.

End DispatcherFacts.

Lemma rtype_eqb_eq (a b : rtype) : rtype_eqb a b = true <-> a = b.
Proof.
  destruct a, b; simpl; split; intros H;
    try reflexivity; try discriminate.
  - apply String.eqb_eq in H. now subst.
  - inversion H. apply String.eqb_refl.
Qed.

Lemma Type_eqb_eq (a b : option rtype) : Type_eqb a b = true <-> a = b.
Proof.
  destruct a as [a|], b as [b|]; simpl; split; intros H;
    try reflexivity; try discriminate.
  - apply rtype_eqb_eq in H. now subst.
  - inversion H. now apply rtype_eqb_eq.
Qed.

Lemma has_method_In (m : string) (ms : list string) :
  has_method m ms = true <-> In m ms.
Proof.
  unfold has_method. rewrite existsb_exists. split.
  - intros (x & Hin & Heq). apply String.eqb_eq in Heq. now subst.
  - intros Hin. exists m. split; [exact Hin|apply String.eqb_refl].
Qed.

Lemma implements_In (v : err) (ms : list string) :
  implements v ms = true <-> (forall m, In m ms -> In m (method_set v)).
Proof.
  unfold implements. rewrite forallb_forall.
  split; intros H m Hin; apply has_method_In, H, Hin.
Qed.

(** ** Texts without line feeds *)




(** ** The claims, continued *)

(** C3, amended. [Wrap], [WithMessage] and [WithStack] return nil for nil.
    [Remap] has no such guard: it hands nil to its rules, returns nil when
    every rule declines nil, and otherwise returns the replacement of the
    first rule that matches nil, which is nil only if that rule says so. *)
Theorem C3_nil_propagation_amended (text : Text) (W : Type) :
  (forall cs msg, Wrap text cs None msg = None)
  /\ (forall msg, WithMessage None msg = None)
  /\ (forall cs, WithStack text cs None = None)
  /\ (forall cs (rules : list (ErrRemapperFunc W)) w w',
         all_decline text cs None rules w w' ->
         Remap text cs None rules w = (None, w'))
  /\ (forall cs (pre post : list (ErrRemapperFunc W)) r e' w w1 w2,
         all_decline text cs None pre w w1 ->
         r (pc_Remap text :: cs) None w1 = ((e', true), w2) ->
         Remap text cs None (pre ++ r :: post) w = (e', w2)).
Proof.
  repeat split; try reflexivity.
  - intros cs rules w w'. apply Remap_no_match.
  - intros cs pre post r e' w w1 w2. apply Remap_first_match.
Qed.

(** C4. [Remap] runs the rules in list order; the first rule that reports a
    match decides: its replacement is returned as it is and no later rule
    runs, so that neither the result nor the world depends on the rules
    after it.  When no rule matches, the error comes back unchanged.  Every
    run is one of the two. *)
Theorem C4_remap_first_match
  (text : Text) (W : Type) (cs : CallStack) (e : error) :
  (forall (pre post : list (ErrRemapperFunc W)) r e' w w1 w2,
      all_decline text cs e pre w w1 ->
      r (pc_Remap text :: cs) e w1 = ((e', true), w2) ->
      Remap text cs e (pre ++ r :: post) w = (e', w2))
  /\ (forall (rules : list (ErrRemapperFunc W)) w w',
         all_decline text cs e rules w w' ->
         Remap text cs e rules w = (e, w'))
  /\ (forall (rules : list (ErrRemapperFunc W)) w,
         (exists pre r post e' w1 w2,
             rules = (pre ++ r :: post)%list
             /\ all_decline text cs e pre w w1
             /\ r (pc_Remap text :: cs) e w1 = ((e', true), w2)
             /\ Remap text cs e rules w = (e', w2))
         \/ (exists w', all_decline text cs e rules w w'
                        /\ Remap text cs e rules w = (e, w'))).
Proof.
  split; [|split].
  - intros pre post r e' w w1 w2. apply Remap_first_match.
  - intros rules w w'. apply Remap_no_match.
  - intros rules w. apply Remap_run.
Qed.

(** C7, amended. The rule of the reflection-based constructor matches
    exactly when [reflect.TypeOf] of the candidate equals [reflect.TypeOf]
    of the sample (so a nil sample matches nil and nothing else).  The rule
    of the generic constructor matches, for a non-interface type argument,
    exactly when the dynamic type of the candidate is that type, and for an
    interface type argument exactly when the candidate is not nil and its
    dynamic type implements the interface.  A matching rule returns what the
    converter returns, the fixed replacement for the constant converter; a
    rule that does not match returns nil and false and leaves the world as
    it is. *)
Theorem C7_type_rules_amended (text : Text) (W : Type) (cs : CallStack) (e : error) (w : W) :
  (forall T conv,
      snd (fst (TypeRemapperLegacyF text T conv cs e w)) = true
      <-> reflect_TypeOf e = reflect_TypeOf T)
  /\ (forall t conv,
         snd (fst (TypeRemapperFunc text (concrete t) conv cs e w)) = true
         <-> reflect_TypeOf e = Some t)
  /\ (forall methods conv,
         snd (fst (TypeRemapperFunc text (interface methods) conv cs e w)) = true
         <-> exists v, e = Some v /\ (forall m, In m methods -> In m (method_set v)))
  /\ (forall T (conv : ErrConverter W),
         TypeRemapperLegacyF text T conv cs e w =
         if Type_eqb (reflect_TypeOf e) (reflect_TypeOf T)
         then let r := conv (pc_TypeRemapperLegacyF_func1 text :: cs) e w in
              ((fst r, true), snd r)
         else ((None, false), w))
  /\ (forall T (conv : ErrConverter W),
         TypeRemapperFunc text T conv cs e w =
         if type_assert e T
         then let r := conv (pc_TypeRemapperFunc_func1 text :: cs) e w in
              ((fst r, true), snd r)
         else ((None, false), w))
  /\ (forall T convertTo,
         TypeRemapperLegacy text T convertTo cs e w =
         if Type_eqb (reflect_TypeOf e) (reflect_TypeOf T)
         then ((convertTo, true), w) else ((None, false), w))
  /\ (forall T convertTo,
         TypeRemapper text T convertTo cs e w =
         if type_assert e T
         then ((convertTo, true), w) else ((None, false), w)).
Proof.
  assert (Hlegacy : forall T (conv : ErrConverter W),
             TypeRemapperLegacyF text T conv cs e w =
             if Type_eqb (reflect_TypeOf e) (reflect_TypeOf T)
             then let r := conv (pc_TypeRemapperLegacyF_func1 text :: cs) e w in
                  ((fst r, true), snd r)
             else ((None, false), w)).
  { intros T conv. unfold TypeRemapperLegacyF, bind, ret.
    destruct (Type_eqb _ _); [|reflexivity].
    destruct (conv _ e w); reflexivity. }
  assert (Hgeneric : forall T (conv : ErrConverter W),
             TypeRemapperFunc text T conv cs e w =
             if type_assert e T
             then let r := conv (pc_TypeRemapperFunc_func1 text :: cs) e w in
                  ((fst r, true), snd r)
             else ((None, false), w)).
  { intros T conv. unfold TypeRemapperFunc, bind, ret.
    destruct (type_assert e T); [|reflexivity].
    destruct (conv _ e w); reflexivity. }
  split; [|split; [|split; [|split; [exact Hlegacy|split; [exact Hgeneric|split]]]]].
  - intros T conv. rewrite Hlegacy, <- Type_eqb_eq.
    destruct (Type_eqb _ _); simpl; split; auto; discriminate.
  - intros t conv. rewrite Hgeneric.
    destruct e as [v|]; simpl.
    + pose proof (rtype_eqb_eq (dynamic_type v) t) as Heq.
      destruct (rtype_eqb _ _); simpl; split; intros H.
      * f_equal. now apply Heq.
      * reflexivity.
      * discriminate.
      * inversion H as [Ht]. apply Heq in Ht. discriminate.
    + split; discriminate.
  - intros methods conv. rewrite Hgeneric.
    destruct e as [v|]; simpl.
    + pose proof (implements_In v methods) as Himpl.
      destruct (implements v methods); simpl; split.
      * intros _. exists v. split; [reflexivity|now apply Himpl].
      * reflexivity.
      * discriminate.
      * intros (v' & Hv' & Hall). inversion Hv'; subst v'.
        now apply Himpl.
    + split; [discriminate|]. intros (v & Hv & _). discriminate.
  - intros T convertTo. unfold TypeRemapperLegacy. rewrite Hlegacy. reflexivity.
  - intros T convertTo. unfold TypeRemapper. rewrite Hgeneric. reflexivity.
Qed.


(** C10, amended. [ErrConstantWrap] applied to nil reports a match and
    yields nil, whatever the message; a rule list that ends in it therefore
    maps nil to nil whenever the rules before it decline nil.  A rule before
    it that matches nil decides the result instead. *)
Theorem C10_fallback_on_nil_amended
  (text : Text) (any : Type) (Sprintf : string -> list any -> string) (W : Type)
  (message : string) (args : list any) :
  (forall cs (w : W),
      ErrConstantWrap text Sprintf message args cs None w = ((None, true), w))
  /\ (forall cs (pre : list (ErrRemapperFunc W)) w w',
         all_decline text cs None pre w w' ->
         Remap text cs None (pre ++ [ErrConstantWrap text Sprintf message args]) w
         = (None, w')).
Proof.
  split; [reflexivity|].
  intros cs pre w w' Hpre.
  apply Remap_first_match with (w1 := w'); [exact Hpre|reflexivity].
Qed.

(** ** The package's own test tables, replayed on the embedding *)

Example TestFuncname :
  map funcname
    [""; "runtime.main"; "github.com/pkg/errors.funcname"; "funcname";
     "io.copyBuffer"; "main.(*R).Write"]
  = [""; "main"; "funcname"; "funcname"; "copyBuffer"; "(*R).Write"].
Proof. reflexivity. Qed.

Example TestFrameFormat_zero :
  map (fun sv => Frame_Format Demo.FuncForPC 0%Z (fst sv) (snd sv))
    [(no_flags, "s"%char); (plus_flag, "s"%char); (no_flags, "d"%char);
     (no_flags, "v"%char)]
  = ["unknown"; "unknown"; "0"; "unknown:0"].
Proof. reflexivity. Qed.

Example TestStackTraceFormat_empty :
  map (fun sv => StackTrace_Format Demo.FuncForPC (fst (fst sv)) (snd (fst sv)) (snd sv))
    [(None, no_flags, "s"%char); (None, no_flags, "v"%char);
     (None, plus_flag, "v"%char); (None, sharp_flag, "v"%char);
     (Some [], no_flags, "s"%char); (Some [], no_flags, "v"%char);
     (Some [], plus_flag, "v"%char); (Some [], sharp_flag, "v"%char)]
  = ["[]"; "[]"; ""; "[]errors.Frame(nil)";
     "[]"; "[]"; ""; "[]errors.Frame{}"].
Proof. reflexivity. Qed.

Example TestFormatWrap_nested :
  option_map (Fprintf_plus_v Demo.FuncForPC Demo.Quote)
    (Wrap Demo.text Demo.stack_of_main
       (Wrap Demo.text Demo.stack_of_main (Some Demo.io_EOF) "error1") "error2")
  = Some ("error2: error1: EOF" ++ LF
            ++ "main.main" ++ LF ++ TAB ++ "/home/dev/app/main.go:12" ++ LF).
Proof. reflexivity. Qed.

(** ** The claims at concrete inputs *)

Lemma C1_witness :
  exists format,
    as_Formatter Demo.FuncForPC Demo.Quote (withMessage Demo.io_EOF "read")
    = Some format
    /\ format no_flags "v"%char = "read: EOF".
Proof.
  eexists. split; [reflexivity|].
  apply (proj2 (proj2 (proj2
           (C1_wrap_text_composition Demo.text Demo.FuncForPC Demo.Quote)))
           (withMessage Demo.io_EOF "read")).
  - reflexivity.
  - right. split; reflexivity.
Defined.

Lemma C2_witness :
  Wrap Demo.text Demo.stack_of_main (Some Demo.io_EOF) "read"
  = Some (withStack (withMessage Demo.io_EOF "read") [Demo.in_main])
  /\ Wrap Demo.text Demo.stack_of_main (Some (fundamental "x" [Demo.in_asm])) "read"
     = Some (withMessage (fundamental "x" [Demo.in_asm]) "read").
Proof.
  split.
  - apply (proj1 (proj2 (proj2
             (C2_wrap_captures_once Demo.text Demo.stack_of_main Demo.io_EOF "read")))).
    reflexivity.
  - apply (proj1 (proj2
             (C2_wrap_captures_once Demo.text Demo.stack_of_main
                (fundamental "x" [Demo.in_asm]) "read"))).
    reflexivity.
Defined.

Lemma C3_witness :
  Remap Demo.text Demo.stack_of_main None
    [Demo.logged "first" (None, false);
     TypeRemapper Demo.text Demo.error_interface (Some Demo.ErrInternal)]
    []
  = (None, ["first"])
  /\ Remap Demo.text Demo.stack_of_main None
       [Demo.logged "first" (None, false);
        Demo.logged "second" (Some Demo.ErrInternal, true);
        Demo.logged "third" (None, true)]
       []
     = (Some Demo.ErrInternal, ["first"; "second"]).
Proof.
  split.
  - apply (proj1 (proj2 (proj2 (proj2
             (C3_nil_propagation_amended Demo.text Demo.Log))))).
    econstructor; [split; reflexivity|].
    econstructor; [split; reflexivity|].
    constructor.
  - apply (proj2 (proj2 (proj2 (proj2
             (C3_nil_propagation_amended Demo.text Demo.Log))))
             Demo.stack_of_main
             [Demo.logged "first" (None, false)]
             [Demo.logged "third" (None, true)]
             (Demo.logged "second" (Some Demo.ErrInternal, true))
             (Some Demo.ErrInternal) [] ["first"] ["first"; "second"]).
    + econstructor; [split; reflexivity|constructor].
    + reflexivity.
Defined.

Lemma C4_witness :
  Remap Demo.text Demo.stack_of_main (Some Demo.io_EOF)
    [Demo.logged "first" (None, false);
     Demo.logged "second" (Some Demo.ErrInternal, true);
     Demo.logged "third" (Some Demo.io_EOF, true)]
    []
  = (Some Demo.ErrInternal, ["first"; "second"])
  /\ Remap Demo.text Demo.stack_of_main (Some Demo.io_EOF)
       [Demo.logged "first" (None, false);
        TypeRemapper Demo.text (concrete (foreign_type "*app.Error"))
          (Some Demo.ErrInternal)]
       []
     = (Some Demo.io_EOF, ["first"]).
Proof.
  split.
  - apply (proj1 (C4_remap_first_match Demo.text Demo.Log Demo.stack_of_main
                    (Some Demo.io_EOF))
             [Demo.logged "first" (None, false)]
             [Demo.logged "third" (Some Demo.io_EOF, true)]
             (Demo.logged "second" (Some Demo.ErrInternal, true))
             (Some Demo.ErrInternal) [] ["first"] ["first"; "second"]).
    + econstructor; [split; reflexivity|constructor].
    + reflexivity.
  - apply (proj1 (proj2 (C4_remap_first_match Demo.text Demo.Log Demo.stack_of_main
                           (Some Demo.io_EOF)))).
    econstructor; [split; reflexivity|].
    econstructor; [split; reflexivity|].
    constructor.
Defined.

Lemma C6_witness :
  Stack (Some (withMessage Demo.io_EOF "read")) = None
  /\ exists pre holder post st,
       chain (withMessage (fundamental "x" [Demo.in_main]) "read")
       = (pre ++ holder :: post)%list
       /\ forallb (fun x => negb (carries_stack x)) pre = true
       /\ as_stackTracer holder = Some (Some st)
       /\ Stack (Some (withMessage (fundamental "x" [Demo.in_main]) "read")) = Some st.
Proof.
  split.
  - apply (proj1 (proj2 (proj2 C6_stack_is_first_in_chain))).
    reflexivity.
  - apply (proj2 (proj2 (proj2 C6_stack_is_first_in_chain))).
    reflexivity.
Defined.

Lemma C7_witness :
  snd (fst (TypeRemapperLegacy Demo.text (Some Demo.ErrInternal) (Some Demo.io_EOF)
              Demo.stack_of_main
              (Some (foreign "*app.Error" [] "disk full" None)) tt)) = true
  /\ snd (fst (TypeRemapper Demo.text (concrete (foreign_type "*app.Error"))
                 (Some Demo.io_EOF) Demo.stack_of_main
                 (Some (foreign "*app.Error" [] "disk full" None)) tt)) = true
  /\ snd (fst (TypeRemapper Demo.text (interface [m_Error; m_Unwrap])
                 (Some Demo.io_EOF) Demo.stack_of_main
                 (Some (withMessage Demo.io_EOF "read")) tt)) = true.
Proof.
  split; [|split].
  - apply (proj1 (C7_type_rules_amended Demo.text Demo.stack_of_main
                    (Some (foreign "*app.Error" [] "disk full" None)) tt)).
    reflexivity.
  - apply (proj1 (proj2 (C7_type_rules_amended Demo.text Demo.stack_of_main
                           (Some (foreign "*app.Error" [] "disk full" None)) tt))).
    reflexivity.
  - apply (proj1 (proj2 (proj2 (C7_type_rules_amended Demo.text Demo.stack_of_main
                                  (Some (withMessage Demo.io_EOF "read")) tt)))).
    exists (withMessage Demo.io_EOF "read"). split; [reflexivity|].
    intros m [<-|[<-|[]]]; simpl; auto.
Defined.

Lemma C8_witness :
  captured Demo.stack_of_main [Demo.in_main]
  /\ nth_error [Demo.in_main] 32 = None.
Proof.
  split.
  - apply (proj1 (proj2 (proj2 (proj2 (proj2
             (C8_capture_depth Demo.text Demo.Sprintf Demo.stack_of_main)))))
             Demo.io_EOF "read" (withMessage Demo.io_EOF "read")).
    reflexivity.
  - apply (proj2 (proj2 (proj2 (proj2 (proj2
             (C8_capture_depth Demo.text Demo.Sprintf Demo.stack_of_main)))))).
    + split; [reflexivity|simpl; lia].
    + lia.
Defined.


Lemma C10_witness :
  Remap Demo.text Demo.stack_of_main None
    [Demo.logged "first" (None, false);
     ErrConstantWrap Demo.text Demo.Sprintf "remap" []]
    []
  = (None, ["first"]).
Proof.
  apply (proj2 (C10_fallback_on_nil_amended Demo.text Demo.Sprintf Demo.Log "remap" [])
           Demo.stack_of_main [Demo.logged "first" (None, false)]).
  econstructor; [split; reflexivity|constructor].
Defined.

(** ** Where the claims as first written fail *)

(** C3 as written says that [Remap(nil, rules)] is nil for every rule list.
    A catch-all rule, and the reflection-based rule with a nil sample, match
    nil and replace it. *)
Lemma C3_counterexample :
  fst (Remap Demo.text Demo.stack_of_main None [Demo.catch_all] tt)
  = Some Demo.ErrInternal
  /\ fst (Remap Demo.text Demo.stack_of_main None
            [TypeRemapperLegacy Demo.text None (Some Demo.ErrInternal)] tt)
     = Some Demo.ErrInternal
  /\ fst (Remap Demo.text Demo.stack_of_main None [Demo.catch_all] tt) <> None.
Proof. split; [reflexivity|split; [reflexivity|discriminate]]. Qed.

(** C7 as written says that the generic rule matches only a candidate whose
    dynamic type is the type argument.  With the interface [error] as type
    argument the rule matches [io.EOF], whose dynamic type is
    [*errors.errorString]. *)
Lemma C7_counterexample :
  snd (fst (TypeRemapper Demo.text Demo.error_interface (Some Demo.ErrInternal)
              Demo.stack_of_main (Some Demo.io_EOF) tt)) = true
  /\ reflect_TypeOf (Some Demo.io_EOF) = Some (foreign_type "*errors.errorString")
  /\ ~ has_type (Some Demo.io_EOF) Demo.error_interface.
Proof.
  split; [reflexivity|]. split; [reflexivity|].
  intros (v & _ & H). discriminate.
Qed.


(** C10 as written says that a rule list ending in [ErrConstantWrap] maps
    nil to nil.  A catch-all rule before it matches nil first. *)
Lemma C10_counterexample :
  fst (Remap Demo.text Demo.stack_of_main None
         [Demo.catch_all; ErrConstantWrap Demo.text Demo.Sprintf "remap" []] tt)
  = Some Demo.ErrInternal
  /\ fst (Remap Demo.text Demo.stack_of_main None
            [Demo.catch_all; ErrConstantWrap Demo.text Demo.Sprintf "remap" []] tt)
     <> None.
Proof. split; [reflexivity|discriminate]. Qed.

(** * Further properties of the package *)

(** ** Searching and slicing strings *)

Lemma prefix_byte (c : ascii) (s : string) :
  prefix (String c "") s =
  match s with
  | EmptyString => false
  | String b _ => Ascii.eqb b c
  end.
Proof.
  destruct s as [|b s]; simpl; [reflexivity|].
  destruct (ascii_dec c b) as [->|Hne].
  - rewrite Ascii.eqb_refl. now destruct s.
  - symmetry. apply Ascii.eqb_neq. congruence.
Qed.

Lemma free_of_app (c : ascii) (a b : string) :
  free_of c (a ++ b) = (free_of c a && free_of c b)%bool.
Proof.
  induction a as [|x a IH]; simpl; [reflexivity|].
  rewrite IH. now rewrite andb_assoc.
Qed.

Lemma slice_from_app (a b : string) :
  slice_from (String.length a) (a ++ b) = b.
Proof. induction a as [|x a IH]; simpl; [now destruct b|exact IH]. Qed.

Lemma slice_from_free (c : ascii) (n : nat) (s : string) :
  free_of c s = true -> free_of c (slice_from n s) = true.
Proof.
  revert s. induction n as [|n IH]; intros s H; [exact H|].
  destruct s as [|b s]; simpl; [reflexivity|].
  simpl in H. apply andb_true_iff in H. now apply IH.
Qed.

Lemma slice_from_suffix (n : nat) (s : string) :
  exists pre, s = pre ++ slice_from n s.
Proof.
  revert s. induction n as [|n IH]; intros s; [now exists ""|].
  destruct s as [|b s]; simpl; [now exists ""|].
  destruct (IH s) as [pre Hpre]. exists (String b pre).
  cbn [append]. now f_equal.
Qed.

Lemma slice_from_past (c : ascii) (a b : string) :
  slice_from (S (String.length a)) (a ++ String c b) = b.
Proof. induction a as [|x a IH]; simpl; [now destruct b|exact IH]. Qed.

Lemma LastIndex_from_cons (pos : nat) (found : Z) (b : ascii) (s : string) (c : ascii) :
  LastIndex_from pos found (String b s) (String c "")
  = LastIndex_from (S pos) (if Ascii.eqb b c then Z.of_nat pos else found) s (String c "").
Proof. cbn [LastIndex_from]. now rewrite prefix_byte. Qed.

Lemma LastIndex_from_free (pos : nat) (found : Z) (s : string) :
  free_of "/" s = true -> LastIndex_from pos found s "/" = found.
Proof.
  revert pos found. induction s as [|b s IH]; intros pos found H.
  - reflexivity.
  - simpl in H. apply andb_true_iff in H. destruct H as [Hb Hs].
    rewrite LastIndex_from_cons, (IH _ _ Hs).
    apply negb_true_iff in Hb. now rewrite Hb.
Qed.

Lemma LastIndex_from_split (pos : nat) (found : Z) (a b : string) :
  free_of "/" b = true ->
  LastIndex_from pos found (a ++ String "/" b) "/" = Z.of_nat (pos + String.length a).
Proof.
  intros Hb. revert pos found. induction a as [|x a IH]; intros pos found.
  - cbn [append]. rewrite LastIndex_from_cons, (LastIndex_from_free _ _ _ Hb).
    rewrite Ascii.eqb_refl. simpl. f_equal. lia.
  - cbn [append]. rewrite LastIndex_from_cons, IH. simpl. f_equal. lia.
Qed.

Lemma index_cons (c b : ascii) (s : string) :
  index 0 (String c "") (String b s)
  = if Ascii.eqb b c then Some 0%nat
    else match index 0 (String c "") s with
         | Some n => Some (S n)
         | None => None
         end.
Proof. cbn [index]. now rewrite prefix_byte. Qed.

Lemma index_byte_split (c : ascii) (p r : string) :
  free_of c p = true ->
  index 0 (String c "") (p ++ String c r) = Some (String.length p).
Proof.
  induction p as [|x p IH]; intros H.
  - cbn [append]. rewrite index_cons. now rewrite Ascii.eqb_refl.
  - simpl in H. apply andb_true_iff in H. destruct H as [Hx Hp].
    cbn [append]. rewrite index_cons, (IH Hp).
    apply negb_true_iff in Hx. now rewrite Hx.
Qed.

Lemma index_byte_free (c : ascii) (s : string) :
  free_of c s = true -> index 0 (String c "") s = None.
Proof.
  induction s as [|x s IH]; intros H; [reflexivity|].
  simpl in H. apply andb_true_iff in H. destruct H as [Hx Hs].
  rewrite index_cons, (IH Hs).
  apply negb_true_iff in Hx. now rewrite Hx.
Qed.

(** Every string has no slash, or a last one. *)
Lemma last_slash (s : string) :
  free_of "/" s = true
  \/ exists a b, s = a ++ String "/" b /\ free_of "/" b = true.
Proof.
  induction s as [|x s [Hfree|(a & b & -> & Hb)]].
  - now left.
  - destruct (Ascii.eqb x "/") eqn:Hx.
    + right. apply Ascii.eqb_eq in Hx. subst x. now exists "", s.
    + left. simpl. now rewrite Hx.
  - right. now exists (String x a), b.
Qed.

(** What [funcname] keeps after its first cut. *)
Lemma after_last_slash (name : string) :
  free_of "/" (slice_from (Z.to_nat (LastIndex name "/" + 1)) name) = true.
Proof.
  unfold LastIndex.
  destruct (last_slash name) as [Hfree|(a & b & -> & Hb)].
  - rewrite (LastIndex_from_free _ _ _ Hfree). exact Hfree.
  - rewrite LastIndex_from_split by exact Hb.
    replace (Z.to_nat (Z.of_nat (0 + String.length a) + 1))
      with (S (String.length a)) by lia.
    now rewrite slice_from_past.
Qed.

Lemma append_assoc (a b c : string) : (a ++ b) ++ c = a ++ (b ++ c).
Proof. induction a as [|x a IH]; simpl; [reflexivity|now rewrite IH]. Qed.

Lemma strip_free (s : string) :
  free_of "/" s = true -> strip_trailing_slashes s = s.
Proof.
  induction s as [|x s IH]; intros H; [reflexivity|].
  simpl in H. apply andb_true_iff in H. destruct H as [Hx Hs].
  cbn [strip_trailing_slashes]. rewrite (IH Hs).
  apply negb_true_iff in Hx. now rewrite Hx.
Qed.

(** A path that ends in a non-empty name has no trailing slash to strip. *)
Lemma strip_named (a base : string) :
  base <> "" -> free_of "/" base = true ->
  strip_trailing_slashes (a ++ base) = a ++ base.
Proof.
  intros Hne Hfree. induction a as [|x a IH].
  - now apply strip_free.
  - cbn [append strip_trailing_slashes]. rewrite IH.
    replace (String.eqb (a ++ base) "") with false; [now rewrite andb_false_r|].
    symmetry. apply String.eqb_neq. destruct a; [exact Hne|discriminate].
Qed.

Lemma path_Base_split (dir base : string) :
  base <> "" -> free_of "/" base = true ->
  path_Base (dir ++ String "/" base) = base.
Proof.
  intros Hne Hfree. unfold path_Base.
  replace (String.eqb (dir ++ String "/" base) "") with false
    by (symmetry; apply String.eqb_neq; destruct dir; discriminate).
  change (dir ++ String "/" base) with (dir ++ ("/" ++ base)).
  rewrite <- append_assoc, (strip_named (dir ++ "/") Hne Hfree), append_assoc.
  change (dir ++ ("/" ++ base)) with (dir ++ String "/" base).
  unfold LastIndex. rewrite LastIndex_from_split by exact Hfree.
  replace (0 <=? Z.of_nat (0 + String.length dir))%Z with true
    by (symmetry; apply Z.leb_le; lia).
  replace (Z.to_nat (Z.of_nat (0 + String.length dir) + 1))
    with (S (String.length dir)) by lia.
  rewrite slice_from_past.
  apply String.eqb_neq in Hne. now rewrite Hne.
Qed.

(** ** stack.go *)

(** X1. [funcname] strips the import path and the package name and keeps
    what follows the first dot after the last slash, receiver
    qualifications included; a name with neither slash nor dot is returned as
    it is. *)
Theorem X1_funcname_strips_package (dir pkg rest : string) :
  free_of "/" pkg = true ->
  free_of "." pkg = true ->
  free_of "/" rest = true ->
  funcname (dir ++ "/" ++ pkg ++ "." ++ rest) = rest
  /\ funcname (pkg ++ "." ++ rest) = rest
  /\ funcname pkg = pkg.
Proof.
  intros Hslash Hdot Hrest.
  assert (Hb : free_of "/" (pkg ++ String "." rest) = true).
  { rewrite free_of_app, Hslash. simpl. exact Hrest. }
  assert (Hcut : slice_from
                   (Z.to_nat (Index (pkg ++ String "." rest) "." + 1))
                   (pkg ++ String "." rest) = rest).
  { unfold Index. rewrite index_byte_split by exact Hdot.
    replace (Z.to_nat (Z.of_nat (String.length pkg) + 1))
      with (S (String.length pkg)) by lia.
    apply slice_from_past. }
  split; [|split].
  - unfold funcname, LastIndex.
    change (dir ++ "/" ++ pkg ++ "." ++ rest)
      with (dir ++ String "/" (pkg ++ String "." rest)).
    rewrite LastIndex_from_split by exact Hb.
    replace (Z.to_nat (Z.of_nat (0 + String.length dir) + 1))
      with (S (String.length dir)) by lia.
    rewrite slice_from_past. exact Hcut.
  - unfold funcname, LastIndex.
    change (pkg ++ "." ++ rest) with (pkg ++ String "." rest).
    rewrite LastIndex_from_free by exact Hb.
    exact Hcut.
  - unfold funcname, LastIndex, Index.
    rewrite LastIndex_from_free by exact Hslash.
    cbn [Z.add Z.to_nat slice_from Z.opp].
    change (Z.to_nat (-1 + 1)) with 0%nat. cbn [slice_from].
    now rewrite index_byte_free by exact Hdot.
Qed.

(** X2. Whatever the name, [funcname] returns a suffix of it that holds no
    slash. *)
Theorem X2_funcname_suffix (name : string) :
  free_of "/" (funcname name) = true
  /\ exists cut, name = cut ++ funcname name.
Proof.
  unfold funcname. split.
  - apply slice_from_free, after_last_slash.
  - destruct (slice_from_suffix (Z.to_nat (LastIndex name "/" + 1)) name)
      as [pre1 H1].
    destruct (slice_from_suffix
                (Z.to_nat (Index (slice_from (Z.to_nat (LastIndex name "/" + 1)) name)
                             "." + 1))
                (slice_from (Z.to_nat (LastIndex name "/" + 1)) name))
      as [pre2 H2].
    exists (pre1 ++ pre2). rewrite append_assoc, <- H2. exact H1.
Qed.

(** X3. For a frame that resolves to a file [dir/base], the short form
    ([%s] without [+]) is the base name alone and [%v] is the base name,
    a colon and the line. *)
Theorem X3_frame_short_form_is_base_name
  (FuncForPC : uintptr -> option Func) (f : Frame) (fn : Func)
  (dir base : string) (line : Z) (s : fmt_State) :
  FuncForPC (pc f) = Some fn ->
  FileLine fn (pc f) = (dir ++ "/" ++ base, line) ->
  base <> "" ->
  free_of "/" base = true ->
  Flag s "+" = false ->
  Frame_Format FuncForPC f s "s" = base
  /\ Frame_Format FuncForPC f s "v" = base ++ ":" ++ strconv_Itoa line.
Proof.
  intros Hfn Hfile Hne Hfree Hplus.
  unfold Frame_Format, FuncInfo. rewrite Hfn, Hfile, Hplus.
  change (dir ++ "/" ++ base) with (dir ++ String "/" base).
  rewrite (path_Base_split dir Hne Hfree). split; reflexivity.
Qed.

Lemma append_nil_r (a : string) : a ++ "" = a.
Proof. induction a as [|x a IH]; simpl; [reflexivity|now rewrite IH]. Qed.

Lemma concat_cons (x : string) (xs : list string) :
  String.concat "" (x :: xs) = x ++ String.concat "" xs.
Proof. destruct xs; simpl; [now rewrite append_nil_r|reflexivity]. Qed.

Lemma concat_app (xs ys : list string) :
  String.concat "" (xs ++ ys) = String.concat "" xs ++ String.concat "" ys.
Proof.
  induction xs as [|x xs IH]; [reflexivity|].
  cbn [app]. now rewrite !concat_cons, IH, append_assoc.
Qed.

(** X4. A frame that resolves to no function prints line 0 under [%d] and,
    under [%n], the sentinel "unknown" itself, whatever the flags. *)
Theorem X4_unresolved_frame_line_and_name
  (FuncForPC : uintptr -> option Func) (f : Frame) (s : fmt_State) :
  FuncForPC (pc f) = None ->
  Frame_Format FuncForPC f s "d" = "0"
  /\ Frame_Format FuncForPC f s "n" = "unknown".
Proof.
  intros Hnone. unfold Frame_Format, FuncInfo. rewrite Hnone.
  split; reflexivity.
Qed.

(** X5. The [Format] methods write nothing for a verb they do not know:
    [Frame] knows [s], [d], [n] and [v], [StackTrace] knows [s] and [v], and
    the three error types know [v], [s] and [q]. *)
Theorem X5_unknown_verbs_write_nothing
  (FuncForPC : uintptr -> option Func) (Quote : string -> string)
  (s : fmt_State) (verb : ascii) :
  verb <> "s"%char -> verb <> "v"%char ->
  (forall st, StackTrace_Format FuncForPC st s verb = "")
  /\ (verb <> "d"%char -> verb <> "n"%char ->
      forall f, Frame_Format FuncForPC f s verb = "")
  /\ (verb <> "q"%char ->
      forall v format,
        as_Formatter FuncForPC Quote v = Some format -> format s verb = "").
Proof.
  intros Hs Hv.
  apply Ascii.eqb_neq in Hs. apply Ascii.eqb_neq in Hv.
  split; [|split].
  - intros st. unfold StackTrace_Format. now rewrite Hv, Hs.
  - intros Hd Hn f.
    apply Ascii.eqb_neq in Hd. apply Ascii.eqb_neq in Hn.
    unfold Frame_Format. destruct (FuncInfo FuncForPC f) as [[file line] name].
    now rewrite Hs, Hd, Hn, Hv.
  - intros Hq v format Hf. apply Ascii.eqb_neq in Hq.
    destruct v as [msg st|emb st|cause msg|T ms txt next]; simpl in Hf;
      inversion Hf; subst format;
      unfold fundamental_Format, withStack_Format, withMessage_Format;
      now rewrite Hv, Hs, Hq.
Qed.

(** X6. A nil and an empty stack trace print alike under [%s], [%v] and
    [%+v]; only [%#v] (without [+]) tells them apart.  Under [%+v] a trace
    prints frame by frame, so the text of two traces put together is the
    text of the first followed by the text of the second. *)
Theorem X6_stack_trace_forms
  (FuncForPC : uintptr -> option Func) (s : fmt_State) (verb : ascii) :
  (Flag s "+" = true \/ Flag s "#" = false \/ verb <> "v"%char ->
   StackTrace_Format FuncForPC None s verb
   = StackTrace_Format FuncForPC (Some []) s verb)
  /\ (Flag s "+" = false -> Flag s "#" = true ->
      StackTrace_Format FuncForPC None s "v" = "[]errors.Frame(nil)"
      /\ StackTrace_Format FuncForPC (Some []) s "v" = "[]errors.Frame{}")
  /\ (Flag s "+" = true ->
      forall a b,
        StackTrace_Format FuncForPC (Some (a ++ b)%list) s "v"
        = StackTrace_Format FuncForPC (Some a) s "v"
            ++ StackTrace_Format FuncForPC (Some b) s "v").
Proof.
  split; [|split].
  - unfold StackTrace_Format, formatSlice.
    intros [Hp|[Hsh|Hv]].
    + now rewrite Hp.
    + rewrite Hsh. reflexivity.
    + apply Ascii.eqb_neq in Hv. now rewrite Hv.
  - intros Hp Hsh. unfold StackTrace_Format. simpl. rewrite Hp, Hsh.
    split; reflexivity.
  - intros Hp a b. unfold StackTrace_Format. simpl. rewrite Hp.
    now rewrite map_app, concat_app.
Qed.


(** X8. [MarshalText] is the [%+v] form with the line feed and tab between
    function and file replaced by one space, for a frame that resolves to a
    function and a file neither of which is called "unknown". *)
Theorem X8_marshal_text_is_flat_detailed_form
  (FuncForPC : uintptr -> option Func) (f : Frame) (fn : Func)
  (file : string) (line : Z) (s : fmt_State) :
  FuncForPC (pc f) = Some fn ->
  FileLine fn (pc f) = (file, line) ->
  Name fn <> unknown ->
  file <> unknown ->
  Flag s "+" = true ->
  MarshalText FuncForPC f = Name fn ++ " " ++ (file ++ ":" ++ strconv_Itoa line)
  /\ Frame_Format FuncForPC f s "v"
     = Name fn ++ (LF ++ TAB) ++ (file ++ ":" ++ strconv_Itoa line).
Proof.
  intros Hfn Hfile Hname Hfilename Hplus.
  apply String.eqb_neq in Hname. apply String.eqb_neq in Hfilename.
  unfold MarshalText, Frame_Format, FuncInfo.
  rewrite Hfn, Hfile, Hname, Hfilename, Hplus. split; [reflexivity|].
  simpl. now rewrite !append_assoc.
Qed.

(** ** errors.go *)

Lemma Cause_of_idem (v : err) : Cause_of (Cause_of v) = Cause_of v.
Proof.
  induction v as [msg st|emb IH st|cause IH msg|T ms txt next IH]; simpl; auto.
  destruct (has_method m_Unwrap ms) eqn:Hm.
  - destruct IH as [v' IH|]; [exact IH|]. simpl. now rewrite Hm.
  - simpl. now rewrite Hm.
Qed.

Lemma Cause_of_not_wrapper (v : err) :
  dynamic_type (Cause_of v) = ptr_fundamental
  \/ exists n, dynamic_type (Cause_of v) = foreign_type n.
Proof.
  induction v as [msg st|emb IH st|cause IH msg|T ms txt next IH]; simpl; auto.
  destruct (has_method m_Unwrap ms).
  - destruct IH as [v' IH|]; [exact IH|]. right. now exists T.
  - right. now exists T.
Qed.

Lemma Cause_Wrap (text : Text) (cs : CallStack) (e : error) (message : string) :
  Cause (Wrap text cs e message) = Cause e.
Proof.
  destruct e as [v|]; [|reflexivity].
  rewrite Wrap_cases. now destruct (Stack_of v).
Qed.

Lemma stacks_none (v : err) :
  Stack_of v = None <-> stacks_in_chain v = 0%nat.
Proof.
  rewrite Stack_of_None. unfold stacks_in_chain.
  generalize (chain v) as l. induction l as [|x l IH]; simpl; [tauto|].
  destruct (carries_stack x); simpl; [split; discriminate|exact IH].
Qed.

(** X9. [Cause] is idempotent, returns nil only for nil, and never returns
    one of the wrappers of this package: the cause is a [fundamental] or an
    error of another package. *)
Theorem X9_cause_is_a_root :
  (forall e, Cause (Cause e) = Cause e)
  /\ (forall e, Cause e = None <-> e = None)
  /\ (forall e c, Cause e = Some c ->
        dynamic_type c = ptr_fundamental \/ exists n, dynamic_type c = foreign_type n).
Proof.
  split; [|split].
  - intros [v|]; [|reflexivity]. simpl. now rewrite Cause_of_idem.
  - intros [v|]; simpl; split; intros H; try reflexivity; discriminate.
  - intros [v|] c H; simpl in H; inversion H. apply Cause_of_not_wrapper.
Qed.

(** X10. Annotating does not change the cause: [WithStack], [WithMessage],
    [WithMessagef], [Wrap] and [Wrapf] of an error, nil included, and any
    number of nested wraps, have the cause of the error. *)
Theorem X10_annotations_keep_the_cause
  (text : Text) (any : Type) (Sprintf : string -> list any -> string)
  (cs : CallStack) (e : error) :
  Cause (WithStack text cs e) = Cause e
  /\ (forall message, Cause (WithMessage e message) = Cause e)
  /\ (forall format args, Cause (WithMessagef Sprintf e format args) = Cause e)
  /\ (forall message, Cause (Wrap text cs e message) = Cause e)
  /\ (forall format args, Cause (Wrapf text Sprintf cs e format args) = Cause e)
  /\ (forall layers, Cause (wraps text e layers) = Cause e).
Proof.
  split; [now destruct e|].
  split; [intros; now destruct e|].
  split; [intros; now destruct e|].
  split; [intros; apply Cause_Wrap|].
  split.
  - intros format args. apply (Cause_Wrap text cs e (Sprintf format args)).
  - intros layers. revert e.
    induction layers as [|[cs' message] rest IH]; intros e; [reflexivity|].
    cbn [wraps]. rewrite IH. apply Cause_Wrap.
Qed.

(** X11. [WithMessage] leaves the stack lookup as it was.  [WithStack] of a
    non-nil error always captures: [Stack] then finds the fresh trace, also
    when the error had one, and the earlier trace is still found one unwrap
    below. *)
Theorem X11_with_stack_shadows_with_message_keeps
  (text : Text) (cs : CallStack) :
  (forall e message, Stack (WithMessage e message) = Stack e)
  /\ (forall v, Stack (WithStack text cs (Some v)) = Some (firstn depth cs))
  /\ (forall v, Stack (Unwrap (WithStack text cs (Some v))) = Stack (Some v)).
Proof.
  split; [intros [v|] message; reflexivity|].
  split; intros v; rewrite WithStack_eq; reflexivity.
Qed.

Lemma Wrap_stacks (text : Text) (cs : CallStack) (v : err) (message : string) :
  option_map stacks_in_chain (Wrap text cs (Some v) message)
  = Some (Nat.max 1 (stacks_in_chain v)).
Proof.
  rewrite Wrap_cases. pose proof (stacks_none v) as Hnone.
  destruct (Stack_of v) as [st|].
  - cbn [option_map].
    change (stacks_in_chain (withMessage v message)) with (stacks_in_chain v).
    destruct (stacks_in_chain v) as [|n]; [|reflexivity].
    destruct Hnone as [_ Hnone]. specialize (Hnone eq_refl). discriminate.
  - cbn [option_map].
    change (stacks_in_chain (withStack (withMessage v message) (firstn depth cs)))
      with (S (stacks_in_chain v)).
    now rewrite (proj1 Hnone eq_refl).
Qed.

Lemma wraps_stacks (text : Text) (layers : list (CallStack * string)) (v : err) :
  exists w, wraps text (Some v) layers = Some w
            /\ stacks_in_chain w
               = match layers with
                 | [] => stacks_in_chain v
                 | _ :: _ => Nat.max 1 (stacks_in_chain v)
                 end.
Proof.
  revert v. induction layers as [|[cs message] rest IH]; intros v.
  - exists v. split; reflexivity.
  - cbn [wraps].
    pose proof (Wrap_stacks text cs v message) as Hw.
    destruct (Wrap text cs (Some v) message) as [w1|]; [|discriminate].
    cbn [option_map] in Hw. inversion Hw as [Hw1].
    destruct (IH w1) as (w & Hwraps & Hcount).
    exists w. split; [exact Hwraps|].
    rewrite Hcount, Hw1.
    destruct rest; [reflexivity|]. now destruct (stacks_in_chain v).
Qed.

(** X12. The number of stack-carrying errors in the chain: [WithMessage]
    keeps it, [WithStack] adds one, and [Wrap] makes it one when it was zero
    and keeps it otherwise, so that [Wrap] never stores a second stack. *)
Theorem X12_stacks_in_chain
  (text : Text) (cs : CallStack) (v : err) (message : string) :
  option_map stacks_in_chain (WithMessage (Some v) message)
  = Some (stacks_in_chain v)
  /\ option_map stacks_in_chain (WithStack text cs (Some v))
     = Some (S (stacks_in_chain v))
  /\ option_map stacks_in_chain (Wrap text cs (Some v) message)
     = Some (Nat.max 1 (stacks_in_chain v))
  /\ (forall layers,
         layers <> [] ->
         option_map stacks_in_chain (wraps text (Some v) layers)
         = Some (Nat.max 1 (stacks_in_chain v))).
Proof.
  split; [reflexivity|]. split; [now rewrite WithStack_eq|].
  split; [apply Wrap_stacks|].
  intros layers Hne. destruct (wraps_stacks text layers v) as (w & -> & Hw).
  cbn [option_map]. rewrite Hw. now destruct layers.
Qed.


Lemma Frame_Format_flags (FuncForPC : uintptr -> option Func) (s s' : fmt_State)
  (f : Frame) (verb : ascii) :
  Flag s "+" = Flag s' "+" ->
  Frame_Format FuncForPC f s verb = Frame_Format FuncForPC f s' verb.
Proof. intros H. unfold Frame_Format. now rewrite H. Qed.

Lemma StackTrace_Format_flags (FuncForPC : uintptr -> option Func) (s s' : fmt_State)
  (st : StackTrace) (verb : ascii) :
  Flag s "+" = Flag s' "+" ->
  Flag s' "+" = true \/ Flag s "#" = Flag s' "#" ->
  StackTrace_Format FuncForPC st s verb = StackTrace_Format FuncForPC st s' verb.
Proof.
  intros Hp Hsh. unfold StackTrace_Format, formatSlice. rewrite Hp.
  assert (Hmap : forall fs v0,
             map (fun f => Frame_Format FuncForPC f s v0) fs
             = map (fun f => Frame_Format FuncForPC f s' v0) fs).
  { intros fs v0. apply map_ext. intros f. now apply Frame_Format_flags. }
  assert (Hmap' : forall fs v0,
             map (fun f => Frame_Format FuncForPC f s v0 ++ LF) fs
             = map (fun f => Frame_Format FuncForPC f s' v0 ++ LF) fs).
  { intros fs v0. apply map_ext. intros f.
    now rewrite (Frame_Format_flags FuncForPC s s' f v0 Hp). }
  rewrite !Hmap, !Hmap'.
  destruct Hsh as [Htrue|Hsh]; [now rewrite Htrue|now rewrite Hsh].
Qed.

(** X13. Of the state of [fmt] the [Format] methods read the [+] flag, and
    [StackTrace.Format] the [#] flag when [+] is not set; width, precision
    and every other flag change nothing in what is written. *)
Theorem X13_formats_read_only_their_flags
  (FuncForPC : uintptr -> option Func) (Quote : string -> string)
  (s s' : fmt_State) (verb : ascii) :
  Flag s "+" = Flag s' "+" ->
  (forall f, Frame_Format FuncForPC f s verb = Frame_Format FuncForPC f s' verb)
  /\ (forall v format,
         as_Formatter FuncForPC Quote v = Some format ->
         format s verb = format s' verb)
  /\ (Flag s "#" = Flag s' "#" ->
      forall st,
        StackTrace_Format FuncForPC st s verb = StackTrace_Format FuncForPC st s' verb).
Proof.
  intros Hp. split; [|split].
  - intros f. now apply Frame_Format_flags.
  - intros v format Hf.
    assert (Hst : forall st, Flag s' "+" = true ->
                    StackTrace_Format FuncForPC (Some st) s verb
                    = StackTrace_Format FuncForPC (Some st) s' verb).
    { intros st Hplus. apply StackTrace_Format_flags; auto. }
    destruct v as [msg st|emb st|cause msg|T ms txt next]; simpl in Hf;
      inversion Hf; subst format;
      unfold fundamental_Format, withStack_Format, withMessage_Format;
      rewrite Hp; try reflexivity;
      (destruct (Flag s' "+") eqn:Hplus; [|reflexivity]);
      rewrite (Hst st eq_refl); reflexivity.
  - intros Hsh st. apply StackTrace_Format_flags; auto.
Qed.

(** X14. The formatting entry points are the plain ones on the formatted
    message: they capture the same trace, their own frame left out. *)
Theorem X14_formatted_variants
  (text : Text) (any : Type) (Sprintf : string -> list any -> string)
  (cs : CallStack) (format : string) (args : list any) :
  Errorf text Sprintf cs format args = New text cs (Sprintf format args)
  /\ (forall e,
         Wrapf text Sprintf cs e format args = Wrap text cs e (Sprintf format args))
  /\ (forall e,
         WithMessagef Sprintf e format args = WithMessage e (Sprintf format args)).
Proof.
  split; [|split].
  - rewrite New_eq. unfold Errorf, newFundamental.
    change (wrap64 (1 + 1)) with 2%Z. now rewrite callers_entry.
  - intros [v|]; [|reflexivity].
    rewrite Wrap_cases. unfold Wrapf, wrap. simpl Stack.
    destruct (Stack_of v); [reflexivity|].
    change (wrap64 (1 + 1)) with 2%Z. now rewrite callers_entry.
  - reflexivity.
Qed.


(** ** remap.go *)

(** [wrap] with an extra skip of one, called from a function that was
    itself called with stack [cs], is [Wrap] called with stack [cs]. *)
Lemma wrap_as_Wrap (text : Text) (inner : uintptr) (cs : CallStack)
  (e : error) (message : string) :
  wrap text (inner :: cs) e message 1 = Wrap text cs e message.
Proof.
  destruct e as [v|]; [|reflexivity].
  rewrite Wrap_cases. unfold wrap. simpl Stack.
  destruct (Stack_of v); [reflexivity|].
  change (wrap64 (1 + 1)) with 2%Z. now rewrite callers_entry.
Qed.

(** X16. Rules that decline can be dropped from the front of the list:
    [Remap] goes on with the remaining rules in the world the declining
    rules left.  With no rule at all the error comes back as it is. *)
Theorem X16_remap_skips_declining_rules
  (text : Text) (W : Type) (cs : CallStack) (e : error) :
  (forall (pre rest : list (ErrRemapperFunc W)) w w1,
      all_decline text cs e pre w w1 ->
      Remap text cs e (pre ++ rest) w = Remap text cs e rest w1)
  /\ (forall w : W, Remap text cs e [] w = (e, w)).
Proof.
  split; [|reflexivity].
  intros pre rest w w1 Hpre.
  induction Hpre as [w|r0 pre w w0 w1 [Hno Hw] _ IH]; [reflexivity|].
  cbn [app]. rewrite Remap_cons, Hno, Hw. exact IH.
Qed.

(** X17. [ErrConstantWrap] matches every error and answers what [Wrap]
    answers for the formatted message, as if the caller of the rule had
    called [Wrap]; it leaves the world alone.  Run by [Remap] on an error
    without a stack, the trace it captures starts with the frame of [Remap]
    and goes on with the stack of the caller of [Remap]. *)
Theorem X17_fallback_rule_is_wrap
  (text : Text) (any : Type) (Sprintf : string -> list any -> string) (W : Type)
  (message : string) (args : list any) (cs : CallStack) (w : W) :
  (forall e,
      ErrConstantWrap text Sprintf message args cs e w
      = ((Wrap text cs e (Sprintf message args), true), w))
  /\ (forall v,
         Stack (Some v) = None ->
         Remap text cs (Some v) [ErrConstantWrap text Sprintf message args] w
         = (Some (withStack (withMessage v (Sprintf message args))
                    (firstn depth (pc_Remap text :: cs))), w)).
Proof.
  split.
  - intros e. unfold ErrConstantWrap, ret. now rewrite wrap_as_Wrap.
  - intros v Hnone. rewrite Remap_cons.
    unfold ErrConstantWrap, ret. cbn [fst snd].
    rewrite wrap_as_Wrap, Wrap_cases. simpl in Hnone. now rewrite Hnone.
Qed.

(** X18. A type rule followed by the fallback: an error of the type gets
    the fixed replacement, every other error, nil included, gets what [Wrap]
    called from [Remap] gives. *)
Theorem X18_type_rule_then_fallback
  (text : Text) (any : Type) (Sprintf : string -> list any -> string) (W : Type)
  (T : TypeArg) (convertTo : error) (message : string) (args : list any)
  (cs : CallStack) (e : error) (w : W) :
  Remap text cs e
    [TypeRemapper text T convertTo; ErrConstantWrap text Sprintf message args] w
  = (if type_assert e T then convertTo
     else Wrap text (pc_Remap text :: cs) e (Sprintf message args), w).
Proof.
  rewrite Remap_cons.
  unfold TypeRemapper, TypeRemapperFunc, ConstConverter, bind, ret.
  destruct (type_assert e T); cbn [fst snd]; [reflexivity|].
  rewrite Remap_cons. unfold ErrConstantWrap, ret. cbn [fst snd].
  now rewrite wrap_as_Wrap.
Qed.

(** X19. For a non-nil sample the reflection-based constructor and the
    generic constructor at the type of the sample give the same rule: only
    the type of the sample counts, not its content. *)
Theorem X19_legacy_rule_is_generic_rule_at_sample_type
  (text : Text) (W : Type) (sample : err) (convertTo : error)
  (cs : CallStack) (e : error) (w : W) :
  TypeRemapperLegacy text (Some sample) convertTo cs e w
  = TypeRemapper text (concrete (dynamic_type sample)) convertTo cs e w.
Proof.
  unfold TypeRemapperLegacy, TypeRemapperLegacyF, TypeRemapper, TypeRemapperFunc,
    ConstConverter, bind, ret.
  destruct e as [v|]; reflexivity.
Qed.

(** X20. The type rules look at the outermost error only.  A rule for a
    type of another package matches an error of that type and stops matching
    it once it is annotated by [WithMessage], [WithStack] or [Wrap]. *)
Theorem X20_annotation_hides_the_type
  (text : Text) (W : Type) (n : string) (convertTo : error)
  (cs cs' : CallStack) (v : err) (w : W) :
  (dynamic_type v = foreign_type n ->
   TypeRemapper text (concrete (foreign_type n)) convertTo cs (Some v) w
   = ((convertTo, true), w))
  /\ (forall message,
         TypeRemapper text (concrete (foreign_type n)) convertTo cs
           (WithMessage (Some v) message) w = ((None, false), w))
  /\ TypeRemapper text (concrete (foreign_type n)) convertTo cs
       (WithStack text cs' (Some v)) w = ((None, false), w)
  /\ (forall message,
         TypeRemapper text (concrete (foreign_type n)) convertTo cs
           (Wrap text cs' (Some v) message) w = ((None, false), w)).
Proof.
  unfold TypeRemapper, TypeRemapperFunc, ConstConverter, bind, ret.
  split; [|split; [|split]].
  - intros Ht. simpl. rewrite Ht. simpl. now rewrite String.eqb_refl.
  - reflexivity.
  - rewrite WithStack_eq. reflexivity.
  - intros message. rewrite Wrap_cases. now destruct (Stack_of v).
Qed.

(** ** The further properties at concrete inputs *)

Lemma X1_witness :
  funcname "github.com/quenbyako/errors.(*X).ptr" = "(*X).ptr"
  /\ funcname "main.(*R).Write" = "(*R).Write"
  /\ funcname "funcname" = "funcname".
Proof.
  split; [|split].
  - apply (proj1 (@X1_funcname_strips_package
                    "github.com/quenbyako" "errors" "(*X).ptr"
                    eq_refl eq_refl eq_refl)).
  - apply (proj1 (proj2 (@X1_funcname_strips_package
                           "" "main" "(*R).Write" eq_refl eq_refl eq_refl))).
  - apply (proj2 (proj2 (@X1_funcname_strips_package
                           "" "funcname" "" eq_refl eq_refl eq_refl))).
Defined.

Lemma X3_witness :
  Frame_Format Demo.FuncForPC Demo.in_main no_flags "s" = "main.go"
  /\ Frame_Format Demo.FuncForPC Demo.in_main no_flags "v" = "main.go:12".
Proof.
  apply (@X3_frame_short_form_is_base_name Demo.FuncForPC Demo.in_main
           Demo.main_main "/home/dev/app" "main.go" 12%Z no_flags
           eq_refl eq_refl).
  - discriminate.
  - reflexivity.
  - reflexivity.
Defined.

Lemma X4_witness :
  Frame_Format Demo.FuncForPC 0%Z plus_flag "d" = "0"
  /\ Frame_Format Demo.FuncForPC 0%Z plus_flag "n" = "unknown".
Proof.
  apply (@X4_unresolved_frame_line_and_name Demo.FuncForPC 0%Z plus_flag).
  reflexivity.
Defined.

Lemma X5_witness :
  StackTrace_Format Demo.FuncForPC (Some [Demo.in_main]) plus_flag "x" = ""
  /\ Frame_Format Demo.FuncForPC Demo.in_main plus_flag "x" = ""
  /\ fundamental_Format Demo.FuncForPC Demo.Quote "boom" [Demo.in_main] plus_flag "x"
     = "".
Proof.
  assert (Hs : "x"%char <> "s"%char) by discriminate.
  assert (Hv : "x"%char <> "v"%char) by discriminate.
  destruct (@X5_unknown_verbs_write_nothing Demo.FuncForPC Demo.Quote plus_flag
              "x"%char Hs Hv) as (Hst & Hframe & Herr).
  split; [apply Hst|]. split.
  - apply Hframe; discriminate.
  - apply (Herr ltac:(discriminate) (fundamental "boom" [Demo.in_main])).
    reflexivity.
Defined.

Lemma X6_witness :
  StackTrace_Format Demo.FuncForPC None no_flags "v"
  = StackTrace_Format Demo.FuncForPC (Some []) no_flags "v"
  /\ StackTrace_Format Demo.FuncForPC None sharp_flag "v"
     <> StackTrace_Format Demo.FuncForPC (Some []) sharp_flag "v"
  /\ StackTrace_Format Demo.FuncForPC (Some [Demo.in_main; Demo.in_asm]) plus_flag "v"
     = StackTrace_Format Demo.FuncForPC (Some [Demo.in_main]) plus_flag "v"
         ++ StackTrace_Format Demo.FuncForPC (Some [Demo.in_asm]) plus_flag "v".
Proof.
  split; [|split].
  - apply (proj1 (@X6_stack_trace_forms Demo.FuncForPC no_flags "v"%char)).
    right. left. reflexivity.
  - destruct (proj1 (proj2 (@X6_stack_trace_forms Demo.FuncForPC sharp_flag "v"%char))
                eq_refl eq_refl) as [-> ->].
    discriminate.
  - apply (proj2 (proj2 (@X6_stack_trace_forms Demo.FuncForPC plus_flag "v"%char))
             eq_refl [Demo.in_main] [Demo.in_asm]).
Defined.

Lemma X8_witness :
  MarshalText Demo.FuncForPC Demo.in_main
  = "main.main" ++ " " ++ "/home/dev/app/main.go:12"
  /\ Frame_Format Demo.FuncForPC Demo.in_main plus_flag "v"
     = "main.main" ++ (LF ++ TAB) ++ "/home/dev/app/main.go:12".
Proof.
  apply (@X8_marshal_text_is_flat_detailed_form Demo.FuncForPC Demo.in_main
           Demo.main_main "/home/dev/app/main.go" 12%Z plus_flag eq_refl eq_refl).
  - discriminate.
  - discriminate.
  - reflexivity.
Defined.

Lemma X9_witness :
  dynamic_type Demo.io_EOF = ptr_fundamental
  \/ exists n, dynamic_type Demo.io_EOF = foreign_type n.
Proof.
  apply (proj2 (proj2 X9_cause_is_a_root)
           (Some (withStack (withMessage Demo.io_EOF "read") [Demo.in_main]))).
  reflexivity.
Defined.

Lemma X12_witness :
  option_map stacks_in_chain
    (wraps Demo.text (Some Demo.io_EOF)
       [(Demo.stack_of_main, "read"); (Demo.stack_of_main, "load")])
  = Some 1%nat.
Proof.
  apply (proj2 (proj2 (proj2
           (X12_stacks_in_chain Demo.text Demo.stack_of_main Demo.io_EOF "read")))).
  discriminate.
Defined.

Lemma X13_witness :
  Frame_Format Demo.FuncForPC Demo.in_main sharp_flag "v"
  = Frame_Format Demo.FuncForPC Demo.in_main no_flags "v".
Proof.
  apply (proj1 (@X13_formats_read_only_their_flags Demo.FuncForPC Demo.Quote
                  sharp_flag no_flags "v"%char eq_refl)).
Defined.


Lemma X16_witness :
  Remap Demo.text Demo.stack_of_main (Some Demo.io_EOF)
    [Demo.logged "first" (None, false);
     Demo.logged "second" (Some Demo.ErrInternal, true)] []
  = Remap Demo.text Demo.stack_of_main (Some Demo.io_EOF)
      [Demo.logged "second" (Some Demo.ErrInternal, true)] ["first"].
Proof.
  apply (proj1 (X16_remap_skips_declining_rules Demo.text Demo.Log Demo.stack_of_main
                  (Some Demo.io_EOF))
           [Demo.logged "first" (None, false)]).
  econstructor; [split; reflexivity|constructor].
Defined.

Lemma X17_witness :
  Remap Demo.text Demo.stack_of_main (Some Demo.io_EOF)
    [ErrConstantWrap Demo.text Demo.Sprintf "remap" []] tt
  = (Some (withStack (withMessage Demo.io_EOF "remap")
             [pc_Remap Demo.text; Demo.in_main]), tt).
Proof.
  apply (proj2 (X17_fallback_rule_is_wrap Demo.text Demo.Sprintf "remap" []
                  Demo.stack_of_main tt)).
  reflexivity.
Defined.

Lemma X20_witness :
  TypeRemapper Demo.text (concrete (foreign_type "*app.Error")) (Some Demo.io_EOF)
    Demo.stack_of_main (Some Demo.ErrInternal) tt
  = ((Some Demo.io_EOF, true), tt).
Proof.
  apply (proj1 (X20_annotation_hides_the_type Demo.text "*app.Error"
                  (Some Demo.io_EOF) Demo.stack_of_main Demo.stack_of_main
                  Demo.ErrInternal tt)).
  reflexivity.
Defined.
